(** * Restocking report: the [action] of app/routes/app._index.jsx

    A shallow embedding of the server action of the restocking report
    (paginated order fetch, date-range filter, flattening of line items,
    grouping by product/variant/SKU, sort by SKU) and the properties of
    its specification.

    The JavaScript runtime pieces the action relies on are modelled after
    ECMA-262: a [Date] holds a time value that is either an integral number
    of milliseconds or NaN, relational operators on dates compare time
    values and are false on NaN, [a || b] picks [b] for a null, undefined
    or empty string [a], and an assignment [o[k] = v] to a plain object
    creates or overwrites an own property (except for the inherited
    [__proto__] accessor).  Three things are left to the environment and
    taken as section variables: the string parser behind [new Date(s)], the
    local time zone adjustment, and [String.prototype.localeCompare]. *)

From stdpp Require Import gmap strings list fin_maps.
From Stdlib Require Import ZArith Lia Ascii Sorting.Sorted.

Local Open Scope string_scope.
Local Open Scope Z_scope.
Local Open Scope list_scope.

(** ** The GraphQL payload, as requested by ORDERS_QUERY

    Fields the query asks for; a field the JSON may carry as [null] is an
    [option].  The [edges { node { ... } } ] wrappers are kept; the
    [cursor] of an order edge is asked for but never read, and is left
    out. *)

Record Edge (A : Type) := mkEdge { node : A }.
Arguments mkEdge {A} _.
Arguments node {A} _.

Module Quantity.
Record t := mk { name : string; quantity : Z }.
End Quantity.

Module Location.
Record t := mk { name : option string }.
End Location.

Module InventoryLevel.
Record t := mk {
    quantities : option (list Quantity.t);
    location : option Location.t }.
End InventoryLevel.

Module InventoryLevels.
Record t := mk { edges : option (list (Edge InventoryLevel.t)) }.
End InventoryLevels.

Module InventoryItem.
Record t := mk { inventoryLevels : option InventoryLevels.t }.
End InventoryItem.

Module Product.
Record t := mk {
    title : option string;
    vendor : option string;
    productType : option string }.
End Product.

Module Variant.
Record t := mk {
    title : option string;
    sku : option string;
    inventoryItem : option InventoryItem.t }.
End Variant.

Module LineItem.
Record t := mk {
    quantity : Z;
    product : option Product.t;
    variant : option Variant.t }.
End LineItem.

Module LineItems.
Record t := mk { edges : list (Edge LineItem.t) }.
End LineItems.

Module Order.
Record t := mk { createdAt : string; lineItems : LineItems.t }.
End Order.

Module PageInfo.
Record t := mk { hasNextPage : bool; endCursor : option string }.
End PageInfo.

Module Orders.
Record t := mk {
    edges : option (list (Edge Order.t));
    pageInfo : PageInfo.t }.
End Orders.

Module Data.
Record t := mk { orders : option Orders.t }.
End Data.

(** The body of one response: [errors] is the GraphQL error array when the
    key is present, [data] the payload. *)
Module Response.
Record t := mk { errors : option (list string); data : option Data.t }.
End Response.

(** One call of [admin.graphql(ORDERS_QUERY, {variables: {cursor}})]: what
    the remote answers, as a function of the cursor it is sent.  A run of
    the action sees a sequence of such calls. *)
Definition Remote := list (option string → Response.t).

(** ** Rows

    [locations] is a plain object from location name to either the
    available quantity or the placeholder string "-".  Quantities are
    GraphQL [Int]s; their sums over the line items of a run are far below
    2^53, where the numbers of JavaScript are exact integers. *)

Inductive Stock := Qty (q : Z) | Dash.

Record Row := mkRow {
  productTitle : string;
  productVariantTitle : string;
  sku : string;
  vendor : string;
  productType : string;
  netItemsSold : Z;
  locations : gmap string Stock }.

(** What the action returns.  [startDate] and [endDate] are what
    [formData.get] gave: a string, or [null] for a field that was not
    submitted. *)
Record ActionData := mkActionData {
  rows : list Row;
  locationNames : list string;
  timestamp : string;
  startDate : option string;
  endDate : option string }.

(** ** JavaScript runtime *)

(** [x || d] on a value that is a string, null or undefined. *)
Definition or_else (x : option string) (d : string) : string :=
  match x with
  | Some s => if decide (s = "") then d else s
  | None => d
  end.

(** [o[k] = v] on an object created by [{}], with [v] a number or a string:
    the inherited setter of [__proto__] ignores such a value, every other
    key becomes an own property. *)
Definition obj_set (o : gmap string Stock) (k : string) (v : Stock)
  : gmap string Stock :=
  if decide (k = "__proto__") then o else <[k := v]> o.

(** [Object.keys(o)].  The engine's order is insertion order (integer-like
    keys first); the order of the map's own enumeration is used here, and
    [merge_locations_keys_order] shows the merge does not depend on it. *)
Definition Object_keys (o : gmap string Stock) : list string :=
  (map_to_list o).*1.

(** [s.add(x)] on a [Set], kept in insertion order as [Array.from] lists
    it. *)
Definition Set_add (s : list string) (x : string) : list string :=
  if decide (x ∈ s) then s else s ++ [x].

(** [formData.get(name)]: the first entry of that name, or null. *)
Fixpoint formData_get (formData : list (string * string)) (name : string)
  : option string :=
  match formData with
  | [] => None
  | (k, v) :: rest => if decide (k = name) then Some v else formData_get rest name
  end.

(** *** Dates (ECMA-262, Date objects) *)

(** The [[DateValue]] of a Date: [None] is NaN (an Invalid Date). *)
Definition Date := option Z.

Definition msPerSecond : Z := 1000.
Definition msPerMinute : Z := 60000.
Definition msPerHour : Z := 3600000.
Definition msPerDay : Z := 86400000.

Definition Day (t : Z) : Z := t `div` msPerDay.
Definition HourFromTime (t : Z) : Z := (t `div` msPerHour) `mod` 24.
Definition MinFromTime (t : Z) : Z := (t `div` msPerMinute) `mod` 60.
Definition MakeTime (hour min sec ms : Z) : Z :=
  hour * msPerHour + min * msPerMinute + sec * msPerSecond + ms.
Definition MakeDate (day time : Z) : Z := day * msPerDay + time.

Definition maxTime : Z := 8640000000000000.

Definition TimeClip (t : Z) : Date :=
  if decide (maxTime < Z.abs t) then None else Some t.

(** [a >= b] and [a <= b] on two Dates: both are converted to their time
    values, and a comparison with NaN is false. *)
Definition Date_ge (a b : Date) : bool :=
  match a, b with
  | Some x, Some y => bool_decide (y ≤ x)
  | _, _ => false
  end.

Definition Date_le (a b : Date) : bool :=
  match a, b with
  | Some x, Some y => bool_decide (x ≤ y)
  | _, _ => false
  end.

(** ** A sample environment and sample inputs

    A server on UTC, the time values of the date strings used below, and
    comparison of strings by code units; then a store with two orders
    around the end of 2024-01-01. *)

Definition sample_Date_parse (s : string) : Date :=
  if decide (s = "2024-01-01T00:00") then Some 1704067200000
  else if decide (s = "2024-01-01T23:59") then Some 1704153540000
  else if decide (s = "2024-01-01T10:00:00Z") then Some 1704103200000
  else if decide (s = "2024-01-01T23:59:30Z") then Some 1704153570000
  else if decide (s = "2024-01-02T00:01:00Z") then Some 1704153660000
  else if decide (s = "+275760-09-13T00:00:00.000Z") then Some maxTime
  else None.

Definition sample_LocalTZA (t : Z) (isUTC : bool) : Z := 0.

Definition sample_localeCompare (a b : string) : Z :=
  match String.compare a b with
  | Lt => -1
  | Eq => 0
  | Gt => 1
  end.

Definition sample_form : list (string * string) :=
  [("startDate", "2024-01-01T00:00"); ("endDate", "2024-01-01T23:59")].

Definition sample_level (loc : option string) (available : option Z)
  : Edge InventoryLevel.t :=
  mkEdge
    (InventoryLevel.mk
       (Some (match available with
              | Some q => [Quantity.mk "available" q]
              | None => []
              end))
       (Some (Location.mk loc))).

Definition sample_lineItem (title vtitle sku vendor : option string)
    (qty : Z) (levels : list (Edge InventoryLevel.t)) : Edge LineItem.t :=
  mkEdge
    (LineItem.mk qty
       (Some (Product.mk title vendor (Some "Parts")))
       (Some (Variant.mk vtitle sku
                (Some (InventoryItem.mk (Some (InventoryLevels.mk (Some levels)))))))).

Definition sample_order (createdAt : string) (items : list (Edge LineItem.t))
  : Edge Order.t :=
  mkEdge (Order.mk createdAt (LineItems.mk items)).

Definition sample_page (edges : list (Edge Order.t)) (more : bool)
  : option string → Response.t :=
  λ _, Response.mk None
         (Some (Data.mk (Some (Orders.mk (Some edges)
                                 (PageInfo.mk more (Some "c")))))).

Definition sample_error : option string → Response.t :=
  λ _, Response.mk (Some ["Throttled"]) None.

Definition order_in : Edge Order.t :=
  sample_order "2024-01-01T10:00:00Z"
    [sample_lineItem (Some "Bolt") (Some "M8") (Some "ABC123") (Some "Acme") 3
       [sample_level (Some "Warehouse A") (Some 10)];
     sample_lineItem (Some "Bolt") (Some "M8") (Some "ABC123") (Some "Apex") 5 []].

Definition order_out : Edge Order.t :=
  sample_order "2024-01-02T00:01:00Z"
    [sample_lineItem (Some "Nut") (Some "M8") (Some "XYZ") (Some "Acme") 7 []].

(** An order created within the last minute of the submitted range. *)
Definition order_late : Edge Order.t :=
  sample_order "2024-01-01T23:59:30Z"
    [sample_lineItem (Some "Nut") (Some "M8") (Some "XYZ") (Some "Acme") 2 []].

(** A busy store: 21 full pages of 50 orders of the range, with more to
    come after each. *)
Definition busy_page : option string → Response.t :=
  sample_page (replicate 50 order_in) true.

Definition busy_remote : Remote := replicate 21 busy_page.

(** The two rows of [order_in]. *)
Definition row_3 : Row :=
  mkRow "Bolt" "M8" "ABC123" "Acme" "Parts" 3 {["Warehouse A" := Qty 10]}.

Definition row_5 : Row := mkRow "Bolt" "M8" "ABC123" "Apex" "Parts" 5 ∅.

Definition row_8 : Row :=
  mkRow "Bolt" "M8" "ABC123" "Acme" "Parts" 8 {["Warehouse A" := Qty 10]}.

(** Two rows of different triples whose key strings are the same. *)
Definition row_bar_1 : Row := mkRow "a||b" "c" "d" "Acme" "Parts" 1 ∅.
Definition row_bar_2 : Row := mkRow "a" "b||c" "d" "Apex" "Parts" 2 ∅.

(** Two line items of different vendors, both without SKU and variant
    title. *)
Definition item_na_1 : Edge LineItem.t :=
  sample_lineItem (Some "Gift") None None (Some "Acme") 1 [].

Definition item_na_2 : Edge LineItem.t :=
  sample_lineItem (Some "Gift") None None (Some "Zenith") 2 [].

Definition order_na : Edge Order.t :=
  sample_order "2024-01-01T10:00:00Z" [item_na_1; item_na_2].

(** A line item with two levels that have no location name: one without
    [location], one whose location has a null name. *)
Definition level_nameless_1 : Edge InventoryLevel.t :=
  mkEdge (InventoryLevel.mk (Some [Quantity.mk "available" 4]) None).

Definition level_nameless_2 : Edge InventoryLevel.t :=
  sample_level None (Some 9).

Definition item_nameless : Edge LineItem.t :=
  sample_lineItem (Some "Cap") (Some "Red") (Some "CAP-1") (Some "Acme") 1
    [level_nameless_1; level_nameless_2].

Definition order_nameless : Edge Order.t :=
  sample_order "2024-01-01T10:00:00Z" [item_nameless].

Definition garbage_form : list (string * string) :=
  [("startDate", "yesterday"); ("endDate", "2024-01-01T23:59")].

(** A form without start date, and one whose end is before its start. *)
Definition endless_form : list (string * string) :=
  [("endDate", "2024-01-01T23:59")].

Definition reversed_form : list (string * string) :=
  [("startDate", "2024-01-01T23:59"); ("endDate", "2024-01-01T00:00")].





Definition row_late : Row := mkRow "Nut" "M8" "XYZ" "Acme" "Parts" 2 ∅.

(** A page with more to come, and its cursor. *)
Definition first_page : option string → Response.t :=
  sample_page [order_out; order_in] true.

Section Action.

(** The time value [new Date(s)] gets from a string, [None] when the
    string is not a date the engine recognises. *)
Variable Date_parse : string → Date.

(** The local time zone adjustment in milliseconds at a time value; the
    flag tells whether the time value is UTC or local. *)
Variable LocalTZA : Z → bool → Z.

(** [a.localeCompare(b)]: negative, zero or positive. *)
Variable localeCompare : string → string → Z.

Definition LocalTime (t : Z) : Z := t + LocalTZA t true.
Definition UTC (t : Z) : Z := t - LocalTZA t false.

(** [new Date(v)] for [v] a string or null; null converts to the number 0,
    the epoch. *)
Definition Date_new (v : option string) : Date :=
  match v with
  | Some s => Date_parse s
  | None => Some 0
  end.

(** [d.setSeconds(sec, ms)]: the new time value of [d]. *)
Definition Date_setSeconds (d : Date) (sec ms : Z) : Date :=
  match d with
  | None => None
  | Some t =>
      let t' := LocalTime t in
      let date :=
        MakeDate (Day t') (MakeTime (HourFromTime t') (MinFromTime t') sec ms) in
      TimeClip (UTC date)
  end.

(** The end bound as the specification words it, the last instant of the
    submitted end minute: the last millisecond of the minute the instant
    [e] falls in, on a clock that is [tz] milliseconds ahead of UTC. *)
Definition end_of_minute (tz e : Z) : Z :=
  e - (e + tz) `mod` 60000 + 59999.

(** ** The fetch loop (lines 90-127) *)

(** The test [created >= startDate && created <= endDate] of an edge. *)
Definition in_range (startDate endDate : Date) (edge : Edge Order.t) : bool :=
  let created := Date_new (Some (Order.createdAt (node edge))) in
  Date_ge created startDate && Date_le created endDate.

(** The body of [for (const edge of edges)]: the test and the push. *)
Definition filter_edge (startDate endDate : Date)
    (allOrders : list (Edge Order.t)) (edge : Edge Order.t)
  : list (Edge Order.t) :=
  if in_range startDate endDate edge then allOrders ++ [edge] else allOrders.

Definition filter_page (startDate endDate : Date)
    (edges : list (Edge Order.t)) (allOrders : list (Edge Order.t))
  : list (Edge Order.t) :=
  fold_left (filter_edge startDate endDate) edges allOrders.

(** One pass of the [while] body ends in [break] or reaches the loop test
    again with new values of the three loop variables. *)
Inductive Iteration :=
  | Break (allOrders : list (Edge Order.t))
  | Next (allOrders : list (Edge Order.t)) (cursor : option string)
      (hasNextPage : bool).

Definition loop_body (startDate endDate : Date) (data : Response.t)
    (allOrders : list (Edge Order.t)) : Iteration :=
  match Response.errors data with
  | Some _ => Break allOrders
  | None =>
      match Response.data data ≫= Data.orders with
      | None => Break allOrders
      | Some ordersConnection =>
          let edges := default [] (Orders.edges ordersConnection) in
          let allOrders := filter_page startDate endDate edges allOrders in
          let hasNextPage :=
            PageInfo.hasNextPage (Orders.pageInfo ordersConnection) in
          let cursor := PageInfo.endCursor (Orders.pageInfo ordersConnection) in
          if decide (1000 < length allOrders)%nat
          then Break allOrders
          else Next allOrders cursor hasNextPage
      end
  end.

(** Where the loop stands once the answers given are used up: it has been
    left with [allOrders], or it waits for the answer to a request sent
    with [cursor]. *)
Inductive Run :=
  | Ended (allOrders : list (Edge Order.t))
  | Waiting (allOrders : list (Edge Order.t)) (cursor : option string).

Definition accumulated (r : Run) : list (Edge Order.t) :=
  match r with
  | Ended allOrders => allOrders
  | Waiting allOrders _ => allOrders
  end.

(** The [while (hasNextPage)] loop against the answers of the remote, one
    per request. *)
Fixpoint fetch_loop (startDate endDate : Date) (remote : Remote)
    (allOrders : list (Edge Order.t)) (cursor : option string)
    (hasNextPage : bool) : Run :=
  if hasNextPage then
    match remote with
    | [] => Waiting allOrders cursor
    | graphql :: remote =>
        match loop_body startDate endDate (graphql cursor) allOrders with
        | Break allOrders => Ended allOrders
        | Next allOrders cursor hasNextPage =>
            fetch_loop startDate endDate remote allOrders cursor hasNextPage
        end
    end
  else Ended allOrders.

(** An answer after which the loop cannot go on: it reports errors, has no
    [orders], or is a page with [hasNextPage] false. *)
Definition ends_fetch (graphql : option string → Response.t) : Prop :=
  ∀ cursor,
    match Response.errors (graphql cursor) with
    | Some _ => True
    | None =>
        match Response.data (graphql cursor) ≫= Data.orders with
        | None => True
        | Some ordersConnection =>
            PageInfo.hasNextPage (Orders.pageInfo ordersConnection) = false
        end
    end.

(** An answer that is a remote error: GraphQL errors, or no [orders]. *)
Definition remote_error (graphql : option string → Response.t) : Prop :=
  ∀ cursor,
    Response.errors (graphql cursor) ≠ None ∨
    Response.data (graphql cursor) ≫= Data.orders = None.

(** Every value [allOrders] takes while a page is filtered: before the
    first edge and after each edge. *)
Fixpoint filter_page_points (startDate endDate : Date)
    (edges : list (Edge Order.t)) (allOrders : list (Edge Order.t))
  : list (list (Edge Order.t)) :=
  allOrders ::
  match edges with
  | [] => []
  | edge :: edges =>
      filter_page_points startDate endDate edges
        (filter_edge startDate endDate allOrders edge)
  end.

(** The edges an answer makes the loop body iterate over. *)
Definition fetched_edges (data : Response.t) : list (Edge Order.t) :=
  match Response.errors data with
  | Some _ => []
  | None =>
      match Response.data data ≫= Data.orders with
      | None => []
      | Some ordersConnection => default [] (Orders.edges ordersConnection)
      end
  end.

(** The orders the loop iterates over, page after page. *)
Fixpoint fetched_orders (startDate endDate : Date) (remote : Remote)
    (allOrders : list (Edge Order.t)) (cursor : option string)
    (hasNextPage : bool) : list (Edge Order.t) :=
  if hasNextPage then
    match remote with
    | [] => []
    | graphql :: remote =>
        let data := graphql cursor in
        fetched_edges data ++
        match loop_body startDate endDate data allOrders with
        | Break _ => []
        | Next allOrders cursor hasNextPage =>
            fetched_orders startDate endDate remote allOrders cursor hasNextPage
        end
    end
  else [].

(** Every value [allOrders] takes during and after the loop, in order. *)
Fixpoint fetch_points (startDate endDate : Date) (remote : Remote)
    (allOrders : list (Edge Order.t)) (cursor : option string)
    (hasNextPage : bool) : list (list (Edge Order.t)) :=
  if hasNextPage then
    match remote with
    | [] => [allOrders]
    | graphql :: remote =>
        let data := graphql cursor in
        filter_page_points startDate endDate (fetched_edges data) allOrders ++
        match loop_body startDate endDate data allOrders with
        | Break _ => []
        | Next allOrders cursor hasNextPage =>
            fetch_points startDate endDate remote allOrders cursor hasNextPage
        end
    end
  else [allOrders].

(** The values of [allOrders] at the loop test, before each request. *)
Fixpoint loop_heads (startDate endDate : Date) (remote : Remote)
    (allOrders : list (Edge Order.t)) (cursor : option string)
    (hasNextPage : bool) : list (list (Edge Order.t)) :=
  allOrders ::
  if hasNextPage then
    match remote with
    | [] => []
    | graphql :: remote =>
        match loop_body startDate endDate (graphql cursor) allOrders with
        | Break _ => []
        | Next allOrders cursor hasNextPage =>
            loop_heads startDate endDate remote allOrders cursor hasNextPage
        end
    end
  else [].

(** ** Rows from the matched orders (lines 133-166) *)

(** [lvl.quantities?.find((q) => q.name === "available")] *)
Definition level_avail (lvl : InventoryLevel.t) : option Quantity.t :=
  InventoryLevel.quantities lvl ≫=
    List.find (λ q, bool_decide (Quantity.name q = "available")).

(** [lvl.location?.name || "Unknown"] *)
Definition level_loc (lvl : InventoryLevel.t) : string :=
  or_else (InventoryLevel.location lvl ≫= Location.name) "Unknown".

(** [avail ? avail.quantity : "-"] *)
Definition level_stock (lvl : InventoryLevel.t) : Stock :=
  match level_avail lvl with
  | Some avail => Qty (Quantity.quantity avail)
  | None => Dash
  end.

(** The body of [for (const lvlEdge of levels)], on the set of location
    names and the row's [locData]. *)
Definition level_step (st : list string * gmap string Stock)
    (lvlEdge : Edge InventoryLevel.t) : list string * gmap string Stock :=
  let '(locationNames, locData) := st in
  let lvl := node lvlEdge in
  let loc := level_loc lvl in
  (Set_add locationNames loc, obj_set locData loc (level_stock lvl)).

(** [v?.inventoryItem?.inventoryLevels?.edges || []] *)
Definition lineItem_levels (n : LineItem.t) : list (Edge InventoryLevel.t) :=
  let v := LineItem.variant n in
  default []
    (((v ≫= Variant.inventoryItem) ≫= InventoryItem.inventoryLevels)
       ≫= InventoryLevels.edges).

(** The object pushed to [rawRows] for a line item, given its [locData]. *)
Definition lineItem_row (n : LineItem.t) (locData : gmap string Stock) : Row :=
  let p := LineItem.product n in
  let v := LineItem.variant n in
  let qty := LineItem.quantity n in
  mkRow (or_else (p ≫= Product.title) "N/A")
        (or_else (v ≫= Variant.title) "N/A")
        (or_else (v ≫= Variant.sku) "N/A")
        (or_else (p ≫= Product.vendor) "N/A")
        (or_else (p ≫= Product.productType) "N/A")
        qty
        locData.

(** The body of [for (const liEdge of orderNode.lineItems.edges)], on
    [rawRows] and [locationNames]. *)
Definition lineItem_step (st : list Row * list string)
    (liEdge : Edge LineItem.t) : list Row * list string :=
  let '(rawRows, locationNames) := st in
  let n := node liEdge in
  let levels := lineItem_levels n in
  let '(locationNames, locData) :=
    fold_left level_step levels (locationNames, ∅) in
  (rawRows ++ [lineItem_row n locData], locationNames).

Definition order_step (st : list Row * list string)
    (orderEdge : Edge Order.t) : list Row * list string :=
  let orderNode := node orderEdge in
  fold_left lineItem_step (LineItems.edges (Order.lineItems orderNode)) st.

Definition build_rows (allOrders : list (Edge Order.t))
  : list Row * list string :=
  fold_left order_step allOrders ([], []).

(** ** Grouping (lines 172-195)

    [grouped] is a plain object used as a map from the key string to the
    aggregate row.  Its keys all contain "||", so none is an integer index
    or a property inherited from [Object.prototype]: the own properties
    are enumerated in insertion order, and the object is kept as an
    association list in that order, one entry per key. *)

Fixpoint grouped_get (grouped : list (string * Row)) (key : string)
  : option Row :=
  match grouped with
  | [] => None
  | (k, g) :: rest => if decide (k = key) then Some g else grouped_get rest key
  end.

(** [grouped[key].field = ...]: the entry of [key] is changed in place. *)
Fixpoint grouped_alter (f : Row → Row) (key : string)
    (grouped : list (string * Row)) : list (string * Row) :=
  match grouped with
  | [] => []
  | (k, g) :: rest =>
      if decide (k = key) then (k, f g) :: rest
      else (k, g) :: grouped_alter f key rest
  end.

Definition group_key (r : Row) : string :=
  productTitle r +:+ "||" +:+ productVariantTitle r +:+ "||" +:+ sku r.

Definition add_sold (n : Z) (g : Row) : Row :=
  mkRow (productTitle g) (productVariantTitle g) (sku g) (vendor g)
    (productType g) (netItemsSold g + n) (locations g).

Definition set_location (loc : string) (v : Stock) (g : Row) : Row :=
  mkRow (productTitle g) (productVariantTitle g) (sku g) (vendor g)
    (productType g) (netItemsSold g) (obj_set (locations g) loc v).

(** [for (const loc of Object.keys(r.locations))
       grouped[key].locations[loc] = r.locations[loc]] over a given list of
    keys. *)
Definition merge_locations (keys : list string) (r : Row) (key : string)
    (grouped : list (string * Row)) : list (string * Row) :=
  fold_left
    (λ grouped loc,
       match locations r !! loc with
       | Some v => grouped_alter (set_location loc v) key grouped
       | None => grouped
       end)
    keys grouped.

(** The body of [for (const r of rawRows)]. *)
Definition group_step (grouped : list (string * Row)) (r : Row)
  : list (string * Row) :=
  let key := group_key r in
  let grouped :=
    match grouped_get grouped key with
    | Some _ => grouped
    | None =>
        grouped ++
          [(key, mkRow (productTitle r) (productVariantTitle r) (sku r)
                   (vendor r) (productType r) 0 ∅)]
    end in
  let grouped := grouped_alter (add_sold (netItemsSold r)) key grouped in
  merge_locations (Object_keys (locations r)) r key grouped.

Definition group_rows (rawRows : list Row) : list (string * Row) :=
  fold_left group_step rawRows [].

Definition Object_values (grouped : list (string * Row)) : list Row :=
  grouped.*2.

(** ** Sorting (lines 197-200)

    [Array.prototype.sort] is stable, and with a consistent comparator its
    result is the one stable sorted arrangement; it is computed here by
    insertion from the right. *)

Fixpoint sort_insert (comparefn : Row → Row → Z) (x : Row) (l : list Row)
  : list Row :=
  match l with
  | [] => [x]
  | y :: l' =>
      if decide (0 < comparefn x y) then y :: sort_insert comparefn x l'
      else x :: l
  end.

Definition Array_sort (comparefn : Row → Row → Z) (l : list Row) : list Row :=
  foldr (sort_insert comparefn) [] l.

(** ** The action (lines 19-209)

    The action of an authenticated request ([authenticate.admin] has given
    [admin]).  [formData] is the submitted form, [remote] the answers of
    [admin.graphql], [now] the string [new Date().toLocaleString()] gives
    when the result is built.  [None]: the fetch loop has not ended within
    the answers given, and nothing is returned yet. *)

Definition final_rows (rawRows : list Row) : list Row :=
  let grouped := group_rows rawRows in
  Array_sort (λ a b, localeCompare (sku a) (sku b)) (Object_values grouped).

Definition report (allOrders : list (Edge Order.t)) (now : string)
    (startDateStr endDateStr : option string) : ActionData :=
  let '(rawRows, locationNames) := build_rows allOrders in
  let finalRows := final_rows rawRows in
  mkActionData finalRows locationNames now startDateStr endDateStr.

Definition action (formData : list (string * string)) (remote : Remote)
    (now : string) : option ActionData :=
  let startDateStr := formData_get formData "startDate" in
  let endDateStr := formData_get formData "endDate" in
  let startDate := Date_new startDateStr in
  let endDate := Date_setSeconds (Date_new endDateStr) 59 999 in
  match fetch_loop startDate endDate remote [] None true with
  | Ended allOrders => Some (report allOrders now startDateStr endDateStr)
  | Waiting _ _ => None
  end.

(** ** Notions of the specification *)

(** The grouping triple of a row. *)
Definition triple (r : Row) : string * string * string :=
  (productTitle r, productVariantTitle r, sku r).

(** The sum of the quantities of some rows. *)
Definition sold (rs : list Row) : Z := foldr Z.add 0 (netItemsSold <$> rs).

(** The stock of a location after an overwrite-merge of the location maps
    of some rows, taken in order: what the last row that reports the
    location says, nothing if no row reports it. *)
Definition last_reported (loc : string) (rs : list Row) : option Stock :=
  last (omap (λ r, locations r !! loc) rs).

(** A title without the character of the key delimiter. *)
Fixpoint no_bar (s : string) : Prop :=
  match s with
  | EmptyString => True
  | String c s' => c ≠ "|"%char ∧ no_bar s'
  end.

(** A location map as the flattener builds it, by assignments to [{}]: it
    has no own property [__proto__]. *)
Definition plain_object (o : gmap string Stock) : Prop :=
  o !! "__proto__" = None.

(** The row the flattener pushes for a line item. *)
Definition flat_row (liEdge : Edge LineItem.t) : Row :=
  let n := node liEdge in
  lineItem_row n (fold_left level_step (lineItem_levels n) ([], ∅)).2.

(** The line items of some orders, in order. *)
Definition lineItems_of (allOrders : list (Edge Order.t))
  : list (Edge LineItem.t) :=
  allOrders ≫= λ orderEdge, LineItems.edges (Order.lineItems (node orderEdge)).

(** The entry of a key in [grouped] once some rows are grouped, worked out
    from the rows alone: the first row of that key gives the fields, each
    row of that key adds its quantity and assigns its locations. *)
Definition absorb (r g : Row) : Row :=
  mkRow (productTitle g) (productVariantTitle g) (sku g) (vendor g)
    (productType g) (netItemsSold g + netItemsSold r)
    (delete "__proto__" (locations r) ∪ locations g).

Definition fresh (r : Row) : Row :=
  mkRow (productTitle r) (productVariantTitle r) (sku r) (vendor r)
    (productType r) 0 ∅.

(** The effect of the merge loop on one entry, and on its location map. *)
Definition assign_all (keys : list string) (r g : Row) : Row :=
  fold_left
    (λ g loc,
       match locations r !! loc with
       | Some v => set_location loc v g
       | None => g
       end)
    keys g.

Definition assign_locations (keys : list string) (from to : gmap string Stock)
  : gmap string Stock :=
  fold_left
    (λ to loc,
       match from !! loc with
       | Some v => obj_set to loc v
       | None => to
       end)
    keys to.

Definition bucket (key : string) (rs : list Row) : option Row :=
  fold_left
    (λ o r,
       if decide (group_key r = key) then Some (absorb r (default (fresh r) o))
       else o)
    rs None.

(** The levels of the line items of some orders, in order. *)
Definition levels_of (allOrders : list (Edge Order.t))
  : list (Edge InventoryLevel.t) :=
  lineItems_of allOrders ≫= λ liEdge, lineItem_levels (node liEdge).

(** ** The results table of the component (lines 286-328)

    What [RestockingReport] puts in the table for the [data] of the
    action: the texts of the header cells, and for each row the children
    of its cells. *)








(** A page with no order and no next page. *)
Definition empty_last_page : option string → Response.t :=
  λ _, Response.mk None
         (Some (Data.mk (Some (Orders.mk (Some []) (PageInfo.mk false None))))).

(** * Properties *)

(** Bounds on the lengths of the lists of a short explicit list. *)
Ltac forall_lengths :=
  repeat (apply Forall_cons_2; [lia|]); apply Forall_nil_2.

Ltac loop_unfold :=
  cbn [fetch_loop loop_heads fetch_points accumulated].

(** ** Dates and the range test *)

Lemma MakeDate_minute_fields (l sec ms : Z) :
  MakeDate (Day l) (MakeTime (HourFromTime l) (MinFromTime l) sec ms)
  = l - l `mod` msPerMinute + sec * msPerSecond + ms.
Proof.
  unfold MakeDate, MakeTime, Day, HourFromTime, MinFromTime.
  unfold msPerDay, msPerHour, msPerMinute, msPerSecond.
  Z.div_mod_to_equations. lia.
Qed.

(** With a fixed offset, [setSeconds(59, 999)] gives the end of the
    minute, or an invalid date when that is no time value. *)
Lemma setSeconds_fixed_offset (tz e : Z) :
  (∀ t isUTC, LocalTZA t isUTC = tz) →
  Date_setSeconds (Some e) 59 999 = TimeClip (end_of_minute tz e).
Proof.
  intros Htz. unfold Date_setSeconds, LocalTime, UTC, end_of_minute.
  rewrite MakeDate_minute_fields, !Htz. f_equal.
  unfold msPerMinute, msPerSecond. lia.
Qed.

Lemma setSeconds_invalid (sec ms : Z) : Date_setSeconds None sec ms = None.
Proof. reflexivity. Qed.

Lemma Date_ge_true (a b : Date) :
  Date_ge a b = true ↔ ∃ x y, a = Some x ∧ b = Some y ∧ y ≤ x.
Proof.
  destruct a as [x|], b as [y|]; simpl; rewrite ?bool_decide_eq_true;
    (split; [intros H | intros (x' & y' & Ha & Hb & H)]);
    try discriminate; [by eauto | congruence].
Qed.

Lemma Date_le_true (a b : Date) :
  Date_le a b = true ↔ ∃ x y, a = Some x ∧ b = Some y ∧ x ≤ y.
Proof.
  destruct a as [x|], b as [y|]; simpl; rewrite ?bool_decide_eq_true;
    (split; [intros H | intros (x' & y' & Ha & Hb & H)]);
    try discriminate; [by eauto | congruence].
Qed.

Lemma in_range_true (startDate endDate : Date) (edge : Edge Order.t) :
  in_range startDate endDate edge = true ↔
  ∃ s t e, startDate = Some s ∧ endDate = Some e ∧
    Date_parse (Order.createdAt (node edge)) = Some t ∧ s ≤ t ≤ e.
Proof.
  unfold in_range. rewrite andb_true_iff, Date_ge_true, Date_le_true. simpl.
  split.
  - intros [(t & s & Ht & -> & Hs) (t' & e & Ht' & -> & He)].
    exists s, t, e. rewrite Ht in Ht'. naive_solver.
  - intros (s & t & e & -> & -> & Ht & Hs & He). split; eauto 6.
Qed.

Lemma in_range_invalid (startDate endDate : Date) (edge : Edge Order.t) :
  startDate = None ∨ endDate = None → in_range startDate endDate edge = false.
Proof.
  intros H. apply not_true_is_false. rewrite in_range_true.
  intros (s & t & e & -> & -> & _). by destruct H.
Qed.

(** The inner loop is a filter of the page, appended to [allOrders]. *)
Lemma filter_page_filter (startDate endDate : Date)
    (edges allOrders : list (Edge Order.t)) :
  filter_page startDate endDate edges allOrders
  = allOrders ++ filter (λ edge, in_range startDate endDate edge) edges.
Proof.
  unfold filter_page. revert allOrders.
  induction edges as [|edge edges IH]; intros allOrders; simpl.
  - by rewrite app_nil_r.
  - rewrite IH. unfold filter_edge.
    destruct (in_range startDate endDate edge) eqn:E.
    + rewrite filter_cons_True by (by apply Is_true_true). by rewrite <- app_assoc.
    + rewrite filter_cons_False by (by apply Is_true_false). done.
Qed.


(** ** The fetch loop *)

Lemma filter_edge_length (startDate endDate : Date)
    (allOrders : list (Edge Order.t)) (edge : Edge Order.t) :
  (length allOrders ≤ length (filter_edge startDate endDate allOrders edge)
   ≤ S (length allOrders))%nat.
Proof.
  unfold filter_edge. destruct (in_range startDate endDate edge).
  - rewrite length_app. simpl. lia.
  - lia.
Qed.

Lemma filter_page_points_length (startDate endDate : Date)
    (edges allOrders : list (Edge Order.t)) :
  Forall (λ a, (length a ≤ length allOrders + length edges)%nat)
    (filter_page_points startDate endDate edges allOrders).
Proof.
  revert allOrders. induction edges as [|edge edges IH]; intros allOrders.
  - constructor; [lia | constructor].
  - simpl. constructor; [lia|].
    eapply Forall_impl; [apply IH|]. intros a Ha. simpl in Ha.
    pose proof (filter_edge_length startDate endDate allOrders edge). lia.
Qed.

Lemma filter_page_length (startDate endDate : Date)
    (edges allOrders : list (Edge Order.t)) :
  (length (filter_page startDate endDate edges allOrders)
   ≤ length allOrders + length edges)%nat.
Proof.
  rewrite filter_page_filter, length_app.
  pose proof (length_filter (λ edge, in_range startDate endDate edge) edges).
  lia.
Qed.

(** Whatever way the body ends, it leaves in [allOrders] the filtered page
    appended to the former value; it reaches the loop test again only
    below the cap. *)
Lemma loop_body_allOrders (startDate endDate : Date) (data : Response.t)
    (allOrders : list (Edge Order.t)) :
  match loop_body startDate endDate data allOrders with
  | Break a => a = filter_page startDate endDate (fetched_edges data) allOrders
  | Next a _ _ =>
      a = filter_page startDate endDate (fetched_edges data) allOrders ∧
      (length a ≤ 1000)%nat
  end.
Proof.
  unfold loop_body, fetched_edges.
  destruct (Response.errors data); [done|].
  destruct (Response.data data ≫= Data.orders) as [ordersConnection|]; [|done].
  case_decide; [done | split; [done | lia]].
Qed.

Lemma fetch_bounds (startDate endDate : Date) (n : nat) (remote : Remote) :
  Forall (λ graphql : option string → Response.t,
            ∀ cursor, (length (fetched_edges (graphql cursor)) ≤ n)%nat) remote →
  ∀ allOrders cursor hasNextPage,
    (length allOrders ≤ 1000)%nat →
    Forall (λ a, (length a ≤ 1000)%nat)
      (loop_heads startDate endDate remote allOrders cursor hasNextPage) ∧
    Forall (λ a, (length a ≤ 1000 + n)%nat)
      (fetch_points startDate endDate remote allOrders cursor hasNextPage) ∧
    (length (accumulated
               (fetch_loop startDate endDate remote allOrders cursor hasNextPage))
     ≤ 1000 + n)%nat.
Proof.
  induction 1 as [|graphql remote Hpage _ IH];
    intros allOrders cursor hasNextPage Hcap.
  - destruct hasNextPage; loop_unfold; (split; [|split]);
      first [forall_lengths | lia].
  - destruct hasNextPage; loop_unfold;
      [|(split; [|split]); first [forall_lengths | lia]].
    specialize (Hpage cursor).
    pose proof (loop_body_allOrders startDate endDate (graphql cursor) allOrders)
      as Hbody.
    pose proof (filter_page_points_length startDate endDate
                  (fetched_edges (graphql cursor)) allOrders) as Hpoints.
    pose proof (filter_page_length startDate endDate
                  (fetched_edges (graphql cursor)) allOrders) as Hlen.
    assert (Forall (λ a, (length a ≤ 1000 + n)%nat)
              (filter_page_points startDate endDate
                 (fetched_edges (graphql cursor)) allOrders)) as Hpoints'.
    { eapply Forall_impl; [exact Hpoints|]. intros a Ha. simpl in Ha. lia. }
    destruct (loop_body startDate endDate (graphql cursor) allOrders)
      as [a | a cursor' hasNextPage'].
    + subst a. loop_unfold. split; [|split].
      * forall_lengths.
      * by rewrite app_nil_r.
      * lia.
    + destruct Hbody as [-> Hle].
      destruct (IH _ cursor' hasNextPage' Hle) as (IH1 & IH2 & IH3).
      split; [|split].
      * apply Forall_cons_2; [lia | done].
      * apply Forall_app. done.
      * done.
Qed.

(** The loop ends with the fetched orders that pass the range test, in
    the order they were fetched. *)
Lemma fetch_loop_filter (startDate endDate : Date) (remote : Remote) :
  ∀ allOrders cursor hasNextPage,
    accumulated
      (fetch_loop startDate endDate remote allOrders cursor hasNextPage)
    = allOrders ++
      filter (λ edge, in_range startDate endDate edge)
        (fetched_orders startDate endDate remote allOrders cursor hasNextPage).
Proof.
  induction remote as [|graphql remote IH]; intros allOrders cursor hasNextPage.
  - destruct hasNextPage; simpl; by rewrite app_nil_r.
  - destruct hasNextPage; [|simpl; by rewrite app_nil_r].
    cbn [fetch_loop fetched_orders].
    pose proof (loop_body_allOrders startDate endDate (graphql cursor) allOrders)
      as Hbody.
    destruct (loop_body startDate endDate (graphql cursor) allOrders)
      as [a | a cursor' hasNextPage'].
    + subst a. by rewrite app_nil_r, filter_page_filter.
    + destruct Hbody as [-> _].
      by rewrite IH, filter_page_filter, filter_app, app_assoc.
Qed.

(** C1, as the code has it.  The test [allOrders.length > 1000] comes
    after a whole page is filtered: [allOrders] is at most 1000 long each
    time a page is requested, and at most 1000 plus the size of a page at
    every point during and after the loop (1050 for the pages of at most
    50 orders the query asks for). *)
Theorem fetch_accumulates_at_most_cap_plus_one_page
    (startDate endDate : Date) (n : nat) (remote : Remote) :
  Forall (λ graphql : option string → Response.t,
            ∀ cursor, (length (fetched_edges (graphql cursor)) ≤ n)%nat) remote →
  Forall (λ allOrders, (length allOrders ≤ 1000)%nat)
    (loop_heads startDate endDate remote [] None true) ∧
  Forall (λ allOrders, (length allOrders ≤ 1000 + n)%nat)
    (fetch_points startDate endDate remote [] None true) ∧
  (length (accumulated (fetch_loop startDate endDate remote [] None true))
   ≤ 1000 + n)%nat.
Proof.
  intros Hpages. apply fetch_bounds; [done | cbn [length]; lia].
Qed.

(** The value [fetch_loop] ends with is the last of [fetch_points]. *)
Lemma fetch_points_last (startDate endDate : Date) (remote : Remote) :
  ∀ allOrders cursor hasNextPage,
    last (fetch_points startDate endDate remote allOrders cursor hasNextPage)
    = Some (accumulated
              (fetch_loop startDate endDate remote allOrders cursor hasNextPage)).
Proof.
  assert (∀ edges allOrders,
            last (filter_page_points startDate endDate edges allOrders)
            = Some (filter_page startDate endDate edges allOrders)) as Hlast.
  { induction edges as [|edge edges IH]; intros allOrders; [done|].
    change (filter_page_points startDate endDate (edge :: edges) allOrders)
      with (allOrders :: filter_page_points startDate endDate edges
                           (filter_edge startDate endDate allOrders edge)).
    rewrite last_cons, IH. done. }
  induction remote as [|graphql remote IH]; intros allOrders cursor hasNextPage.
  - by destruct hasNextPage.
  - destruct hasNextPage; [|done]. simpl.
    pose proof (loop_body_allOrders startDate endDate (graphql cursor) allOrders)
      as Hbody.
    destruct (loop_body startDate endDate (graphql cursor) allOrders)
      as [a | a cursor' hasNextPage'].
    + rewrite app_nil_r, Hlast. by subst a.
    + rewrite last_app, IH. done.
Qed.

(** Running the loop on more answers: it goes on from where it waited. *)
Lemma fetch_loop_app (startDate endDate : Date) (pre rest : Remote) :
  ∀ allOrders cursor hasNextPage,
    fetch_loop startDate endDate (pre ++ rest) allOrders cursor hasNextPage
    = match fetch_loop startDate endDate pre allOrders cursor hasNextPage with
      | Ended a => Ended a
      | Waiting a c => fetch_loop startDate endDate rest a c true
      end.
Proof.
  induction pre as [|graphql pre IH]; intros allOrders cursor hasNextPage.
  - by destruct hasNextPage, rest.
  - destruct hasNextPage; [|done]. simpl.
    destruct (loop_body startDate endDate (graphql cursor) allOrders); [done|].
    apply IH.
Qed.

Lemma fetch_loop_error (startDate endDate : Date)
    (bad : option string → Response.t) (rest : Remote)
    (allOrders : list (Edge Order.t)) (cursor : option string) :
  remote_error bad →
  fetch_loop startDate endDate (bad :: rest) allOrders cursor true
  = Ended allOrders.
Proof.
  intros Hbad. simpl. unfold loop_body.
  destruct (Hbad cursor) as [Herr | Hnone].
  - by destruct (Response.errors (bad cursor)).
  - rewrite Hnone. by destruct (Response.errors (bad cursor)).
Qed.

Lemma fetch_loop_empty_last_page (startDate endDate : Date) (rest : Remote)
    (allOrders : list (Edge Order.t)) (cursor : option string) :
  fetch_loop startDate endDate (empty_last_page :: rest) allOrders cursor true
  = Ended allOrders.
Proof.
  simpl. unfold loop_body. simpl. case_decide; [done|]. by destruct rest.
Qed.

(** The loop is left as soon as an answer ends the fetch. *)
Lemma fetch_loop_ends (startDate endDate : Date) (remote : Remote) :
  Exists ends_fetch remote →
  ∀ allOrders cursor hasNextPage,
    ∃ a, fetch_loop startDate endDate remote allOrders cursor hasNextPage
         = Ended a.
Proof.
  induction remote as [|graphql remote IH];
    intros Hex allOrders cursor hasNextPage.
  - by apply Exists_nil in Hex.
  - destruct hasNextPage; [|by eexists]. simpl.
    destruct (loop_body startDate endDate (graphql cursor) allOrders)
      as [a | a cursor' hasNextPage'] eqn:Hbody; [by eexists|].
    apply Exists_cons in Hex as [Hend | Hex]; [|by apply IH].
    specialize (Hend cursor). unfold loop_body in Hbody.
    destruct (Response.errors (graphql cursor)); [done|].
    destruct (Response.data (graphql cursor) ≫= Data.orders); [|done].
    case_decide; [done|]. injection Hbody as <- <- <-. rewrite Hend.
    destruct remote; by eexists.
Qed.

(** With an invalid bound no edge passes the test, and the loop leaves
    [allOrders] as it was. *)
Lemma fetch_loop_invalid (startDate endDate : Date) (remote : Remote) :
  startDate = None ∨ endDate = None →
  ∀ allOrders cursor hasNextPage,
    accumulated
      (fetch_loop startDate endDate remote allOrders cursor hasNextPage)
    = allOrders.
Proof.
  intros Hinv.
  assert (∀ edges allOrders,
            filter_page startDate endDate edges allOrders = allOrders) as Hpage.
  { unfold filter_page. induction edges as [|edge edges IHe]; [done|].
    intros allOrders. simpl. unfold filter_edge at 2.
    by rewrite (in_range_invalid _ _ edge Hinv). }
  induction remote as [|graphql remote IH]; intros allOrders cursor hasNextPage.
  - by destruct hasNextPage.
  - destruct hasNextPage; [|done]. simpl.
    pose proof (loop_body_allOrders startDate endDate (graphql cursor) allOrders)
      as Hbody.
    destruct (loop_body startDate endDate (graphql cursor) allOrders)
      as [a | a cursor' hasNextPage'].
    + by rewrite Hbody, Hpage.
    + destruct Hbody as [-> _]. by rewrite IH, Hpage.
Qed.

(** ** The action: errors, invalid dates, echoed strings *)

(** At a remote error the loop is left with what it has accumulated, as
    it is at an empty last page. *)
Lemma action_remote_error
    (formData : list (string * string)) (pre : Remote)
    (bad : option string → Response.t) (rest : Remote) (now : string) :
  remote_error bad →
  let startDateStr := formData_get formData "startDate" in
  let endDateStr := formData_get formData "endDate" in
  let startDate := Date_new startDateStr in
  let endDate := Date_setSeconds (Date_new endDateStr) 59 999 in
  let partial := accumulated (fetch_loop startDate endDate pre [] None true) in
  action formData (pre ++ bad :: rest) now
    = Some (report partial now startDateStr endDateStr) ∧
  action formData (pre ++ [empty_last_page]) now
    = action formData (pre ++ bad :: rest) now.
Proof.
  intros Hbad startDateStr endDateStr startDate endDate partial.
  subst partial. unfold action.
  fold startDateStr endDateStr. fold startDate endDate.
  rewrite !fetch_loop_app.
  destruct (fetch_loop startDate endDate pre [] None true) as [a | a c].
  - done.
  - by rewrite fetch_loop_error, fetch_loop_empty_last_page.
Qed.

(** C7, as the code has it.  When the submitted start or end string
    parses to an invalid date, the comparison of any creation time with
    that bound is false (the comparison with the other bound may still be
    true), no order passes the range test, and the action returns an empty
    list of rows instead of raising or reporting the input, once the
    remote ends the fetch. *)
Theorem invalid_date_returns_no_rows
    (formData : list (string * string)) (remote : Remote) (now : string) :
  let startDate := Date_new (formData_get formData "startDate") in
  let endDate :=
    Date_setSeconds (Date_new (formData_get formData "endDate")) 59 999 in
  Date_new (formData_get formData "startDate") = None ∨
  Date_new (formData_get formData "endDate") = None →
  Exists ends_fetch remote →
  (∀ created : Date,
     (Date_new (formData_get formData "startDate") = None →
      Date_ge created startDate = false) ∧
     (Date_new (formData_get formData "endDate") = None →
      Date_le created endDate = false)) ∧
  (∀ edge, in_range startDate endDate edge = false) ∧
  ∃ result, action formData remote now = Some result ∧
            rows result = [] ∧ locationNames result = [].
Proof.
  intros startDate endDate Hinv Hends.
  assert (startDate = None ∨ endDate = None) as Hinv'.
  { subst startDate endDate. destruct Hinv as [->| ->]; auto. }
  split; [|split].
  - intros created. subst startDate endDate. split; intros ->.
    + by destruct created.
    + by destruct created.
  - intros edge. by apply in_range_invalid.
  - unfold action. fold startDate endDate.
    destruct (fetch_loop_ends startDate endDate remote Hends [] None true)
      as [a Ha].
    pose proof (fetch_loop_invalid startDate endDate remote Hinv' [] None true)
      as Hacc.
    rewrite Ha in Hacc |- *. simpl in Hacc. subst a. eauto.
Qed.

(** C8. The [startDate] and [endDate] of the returned result are the
    submitted form values themselves; the end date moved to the end of its
    minute is a separate value that never reaches them. *)
Theorem result_echoes_submitted_strings
    (formData : list (string * string)) (remote : Remote) (now : string)
    (startDateStr endDateStr : string) :
  formData_get formData "startDate" = Some startDateStr →
  formData_get formData "endDate" = Some endDateStr →
  (∀ result, action formData remote now = Some result →
     startDate result = Some startDateStr ∧
     endDate result = Some endDateStr) ∧
  (Exists ends_fetch remote →
   ∃ result, action formData remote now = Some result).
Proof.
  intros Hs He. unfold action. rewrite Hs, He. split.
  - intros result.
    destruct (fetch_loop _ _ remote [] None true) as [a | a c]; [|done].
    intros [= <-]. unfold report. by destruct (build_rows a).
  - intros Hends.
    destruct (fetch_loop_ends (Date_new (Some startDateStr))
                (Date_setSeconds (Date_new (Some endDateStr)) 59 999)
                remote Hends [] None true) as [a ->].
    eauto.
Qed.

(** ** The object [grouped] *)

Lemma grouped_get_alter (f : Row → Row) (key key' : string)
    (grouped : list (string * Row)) :
  grouped_get (grouped_alter f key grouped) key'
  = if decide (key' = key) then f <$> grouped_get grouped key'
    else grouped_get grouped key'.
Proof.
  induction grouped as [|[k g] grouped IH]; simpl.
  - by case_decide.
  - destruct (decide (k = key)) as [->|Hk]; simpl.
    + repeat case_decide; by simplify_eq.
    + rewrite IH. repeat case_decide; by simplify_eq.
Qed.

Lemma grouped_alter_keys (f : Row → Row) (key : string)
    (grouped : list (string * Row)) :
  (grouped_alter f key grouped).*1 = grouped.*1.
Proof.
  induction grouped as [|[k g] grouped IH]; [done|]. simpl.
  case_decide; csimpl; by rewrite ?IH.
Qed.

Lemma grouped_alter_compose (f f' : Row → Row) (key : string)
    (grouped : list (string * Row)) :
  grouped_alter f key (grouped_alter f' key grouped)
  = grouped_alter (f ∘ f') key grouped.
Proof.
  induction grouped as [|[k g] grouped IH]; [done|]. simpl.
  destruct (decide (k = key)) as [->|Hk]; simpl.
  - by rewrite decide_True.
  - by rewrite decide_False, IH.
Qed.

Lemma grouped_alter_ext (f f' : Row → Row) (key : string)
    (grouped : list (string * Row)) :
  (∀ g, f g = f' g) →
  grouped_alter f key grouped = grouped_alter f' key grouped.
Proof.
  intros Hext. induction grouped as [|[k g] grouped IH]; [done|]. simpl.
  case_decide; by rewrite ?Hext, ?IH.
Qed.

Lemma grouped_alter_id (key : string) (grouped : list (string * Row)) :
  grouped_alter (λ g, g) key grouped = grouped.
Proof.
  induction grouped as [|[k g] grouped IH]; [done|]. simpl.
  case_decide; by rewrite ?IH.
Qed.

Lemma grouped_get_None (grouped : list (string * Row)) (key : string) :
  grouped_get grouped key = None ↔ key ∉ grouped.*1.
Proof.
  induction grouped as [|[k g] grouped IH]; simpl.
  - split; [intros _; apply not_elem_of_nil | done].
  - rewrite not_elem_of_cons. case_decide; subst.
    + split; [done | by intros [? _]].
    + rewrite IH. split; [by intros ?; split | by intros [_ ?]].
Qed.

Lemma grouped_get_elem_of (grouped : list (string * Row)) (key : string)
    (g : Row) :
  grouped_get grouped key = Some g → (key, g) ∈ grouped.
Proof.
  induction grouped as [|[k g'] grouped IH]; simpl; [done|].
  case_decide; subst.
  - intros [= ->]. apply list_elem_of_here.
  - intros Hget. apply list_elem_of_further. by apply IH.
Qed.

Lemma grouped_get_NoDup (grouped : list (string * Row)) (key : string)
    (g : Row) :
  NoDup grouped.*1 → (key, g) ∈ grouped → grouped_get grouped key = Some g.
Proof.
  induction grouped as [|[k g'] grouped IH]; simpl.
  - intros _ H. by apply elem_of_nil in H.
  - rewrite NoDup_cons. intros [Hk Hnd] Hin.
    apply elem_of_cons in Hin as [[= -> ->]|Hin].
    + by rewrite decide_True.
    + rewrite decide_False; [by apply IH|].
      intros ->. apply Hk. apply list_elem_of_fmap. by exists (key, g).
Qed.

Lemma grouped_get_snoc (grouped : list (string * Row)) (key key' : string)
    (g : Row) :
  grouped_get grouped key = None →
  grouped_get (grouped ++ [(key, g)]) key'
  = if decide (key' = key) then Some g else grouped_get grouped key'.
Proof.
  induction grouped as [|[k g'] grouped IH]; simpl.
  - intros _. destruct (decide (key = key')) as [->|Hne].
    + by rewrite decide_True.
    + by rewrite decide_False by congruence.
  - destruct (decide (k = key)) as [->|Hk]; [done|]. intros Hnone.
    destruct (decide (k = key')) as [->|Hk']; [|by apply IH].
    by rewrite decide_False.
Qed.

(** ** One row into [grouped] *)

Lemma merge_locations_alter (keys : list string) (r : Row) (key : string) :
  ∀ grouped,
    merge_locations keys r key grouped
    = grouped_alter (assign_all keys r) key grouped.
Proof.
  unfold merge_locations, assign_all.
  induction keys as [|loc keys IH]; intros grouped; simpl.
  - by rewrite grouped_alter_id.
  - rewrite IH. destruct (locations r !! loc) as [v|].
    + by rewrite grouped_alter_compose.
    + done.
Qed.

Lemma assign_all_fields (keys : list string) (r : Row) :
  ∀ g,
    assign_all keys r g
    = mkRow (productTitle g) (productVariantTitle g) (sku g) (vendor g)
        (productType g) (netItemsSold g)
        (assign_locations keys (locations r) (locations g)).
Proof.
  unfold assign_all, assign_locations.
  induction keys as [|loc keys IH]; intros g; simpl.
  - by destruct g.
  - rewrite IH. by destruct (locations r !! loc).
Qed.

(** What the assignments leave under a location: the value of [from] for a
    key of the list that [from] has (other than [__proto__]), the former
    value otherwise. *)
Lemma assign_locations_lookup (keys : list string)
    (from : gmap string Stock) (loc : string) :
  ∀ to,
    assign_locations keys from to !! loc
    = match (if decide (loc ∈ keys ∧ loc ≠ "__proto__")
             then from !! loc else None) with
      | Some v => Some v
      | None => to !! loc
      end.
Proof.
  unfold assign_locations.
  induction keys as [|k keys IH]; intros to; cbn [fold_left].
  - rewrite decide_False; [done|]. intros [H _]. by apply elem_of_nil in H.
  - rewrite IH.
    destruct (decide (loc ∈ keys ∧ loc ≠ "__proto__")) as [[Hin Hne]|Hno].
    + rewrite decide_True by (split; [by apply list_elem_of_further | done]).
      destruct (from !! loc) as [v|] eqn:Hloc; [done|].
      destruct (from !! k) as [v|] eqn:Hk; [|done].
      unfold obj_set. case_decide; [done|].
      rewrite lookup_insert_ne; [done|]. intros ->. congruence.
    + destruct (decide (k = loc)) as [->|Hk].
      * destruct (decide (loc = "__proto__")) as [->|Hne].
        -- rewrite decide_False by (by intros [_ ?]).
           destruct (from !! "__proto__"); [|done].
           unfold obj_set. by rewrite decide_True.
        -- rewrite decide_True by (split; [apply list_elem_of_here | done]).
           destruct (from !! loc) as [v|]; [|done].
           unfold obj_set. rewrite decide_False by done.
           by rewrite lookup_insert_eq.
      * rewrite decide_False.
        2:{ intros [Hin Hne]. apply Hno. split; [|done].
            apply elem_of_cons in Hin as [?|?]; [congruence | done]. }
        destruct (from !! k) as [v|]; [|done].
        unfold obj_set. case_decide; [done|].
        by rewrite lookup_insert_ne.
Qed.

Lemma elem_of_Object_keys (o : gmap string Stock) (loc : string) :
  loc ∈ Object_keys o ↔ is_Some (o !! loc).
Proof.
  unfold Object_keys. rewrite list_elem_of_fmap. split.
  - intros [[k v] [-> Hin]]. apply elem_of_map_to_list in Hin. by exists v.
  - intros [v Hv]. exists (loc, v). split; [done|].
    by apply elem_of_map_to_list.
Qed.

(** The merge loop assigns every own key of the row's locations, whatever
    the order the keys are listed in. *)
Lemma assign_locations_keys (keys : list string) (from to : gmap string Stock) :
  (∀ loc, loc ∈ keys ↔ is_Some (from !! loc)) →
  assign_locations keys from to = delete "__proto__" from ∪ to.
Proof.
  intros Hkeys. apply map_eq. intros loc.
  rewrite assign_locations_lookup, lookup_union, lookup_delete.
  destruct (decide (loc = "__proto__")) as [->|Hne].
  - rewrite decide_False by (by intros [_ ?]).
    rewrite decide_True by done. by destruct (to !! "__proto__").
  - rewrite (decide_False (P := "__proto__" = loc)) by congruence.
    destruct (from !! loc) as [v|] eqn:Hloc.
    + rewrite decide_True; [by destruct (to !! loc)|].
      split; [|done]. apply Hkeys. by rewrite Hloc.
    + destruct (decide _); by destruct (to !! loc).
Qed.

Lemma merge_locations_keys_order (keys : list string) (r : Row) (key : string)
    (grouped : list (string * Row)) :
  keys ≡ₚ Object_keys (locations r) →
  merge_locations keys r key grouped
  = merge_locations (Object_keys (locations r)) r key grouped.
Proof.
  intros Hperm. rewrite !merge_locations_alter.
  apply grouped_alter_ext. intros g. rewrite !assign_all_fields.
  f_equal. rewrite !assign_locations_keys; [done | | ].
  - intros loc. apply elem_of_Object_keys.
  - intros loc. rewrite Hperm. apply elem_of_Object_keys.
Qed.

Lemma group_step_alter (grouped : list (string * Row)) (r : Row) :
  group_step grouped r
  = grouped_alter (absorb r) (group_key r)
      (match grouped_get grouped (group_key r) with
       | Some _ => grouped
       | None => grouped ++ [(group_key r, fresh r)]
       end).
Proof.
  unfold group_step. rewrite merge_locations_alter, grouped_alter_compose.
  apply grouped_alter_ext. intros g. simpl.
  rewrite assign_all_fields. unfold absorb, add_sold. simpl. f_equal.
  apply assign_locations_keys. intros loc. apply elem_of_Object_keys.
Qed.

Lemma group_step_get (grouped : list (string * Row)) (r : Row) (key : string) :
  grouped_get (group_step grouped r) key
  = if decide (group_key r = key)
    then Some (absorb r (default (fresh r) (grouped_get grouped key)))
    else grouped_get grouped key.
Proof.
  rewrite group_step_alter, grouped_get_alter.
  destruct (decide (key = group_key r)) as [->|Hne].
  - rewrite decide_True by done.
    destruct (grouped_get grouped (group_key r)) as [g|] eqn:Hget.
    + by rewrite Hget.
    + rewrite grouped_get_snoc by done. by rewrite decide_True.
  - rewrite decide_False by congruence.
    destruct (grouped_get grouped (group_key r)) eqn:Hget; [done|].
    rewrite grouped_get_snoc by done. by rewrite decide_False.
Qed.

Lemma group_step_keys (grouped : list (string * Row)) (r : Row) :
  (group_step grouped r).*1
  = if decide (group_key r ∈ grouped.*1) then grouped.*1
    else grouped.*1 ++ [group_key r].
Proof.
  rewrite group_step_alter, grouped_alter_keys.
  destruct (grouped_get grouped (group_key r)) eqn:Hget.
  - rewrite decide_True; [done|].
    destruct (decide (group_key r ∈ grouped.*1)) as [|Hno]; [done|].
    apply grouped_get_None in Hno. congruence.
  - rewrite decide_False by (by apply grouped_get_None).
    by rewrite fmap_app.
Qed.

(** ** All rows into [grouped]: the bucket of a key *)

Lemma group_rows_get_fold (rs : list Row) (key : string) :
  ∀ grouped,
    grouped_get (fold_left group_step rs grouped) key
    = fold_left
        (λ o r,
           if decide (group_key r = key)
           then Some (absorb r (default (fresh r) o))
           else o)
        rs (grouped_get grouped key).
Proof.
  induction rs as [|r rs IH]; intros grouped; [done|].
  cbn [fold_left]. by rewrite IH, group_step_get.
Qed.

Lemma group_rows_bucket (rs : list Row) (key : string) :
  grouped_get (group_rows rs) key = bucket key rs.
Proof. apply group_rows_get_fold. Qed.

Lemma group_rows_NoDup (rs : list Row) : NoDup (group_rows rs).*1.
Proof.
  unfold group_rows.
  assert (∀ grouped, NoDup grouped.*1 →
            NoDup (fold_left group_step rs grouped).*1) as Hgen.
  { induction rs as [|r rs IH]; intros grouped Hnd; [done|].
    cbn [fold_left]. apply IH. rewrite group_step_keys.
    case_decide; [done|]. apply NoDup_app. split; [done|]. split.
    - intros k Hk Hin. apply list_elem_of_singleton in Hin. by subst.
    - apply NoDup_singleton. }
  apply Hgen. constructor.
Qed.

Lemma bucket_snoc (key : string) (rs : list Row) (r : Row) :
  bucket key (rs ++ [r])
  = if decide (group_key r = key)
    then Some (absorb r (default (fresh r) (bucket key rs)))
    else bucket key rs.
Proof. unfold bucket. by rewrite fold_left_app. Qed.

Lemma bucket_None (key : string) (rs : list Row) :
  bucket key rs = None ↔ Forall (λ r, group_key r ≠ key) rs.
Proof.
  induction rs as [|r rs IH] using rev_ind.
  - split; [constructor | done].
  - rewrite bucket_snoc, Forall_app, Forall_singleton.
    case_decide as Hkey.
    + split; [done | by intros [_ ?]].
    + rewrite IH. split; [by intros ? | by intros [? _]].
Qed.

(** The first row of a key sets the fields of its bucket for good. *)
Lemma bucket_first (key : string) (rs : list Row) :
  ∀ g, bucket key rs = Some g →
    ∃ l1 r l2,
      rs = l1 ++ r :: l2 ∧ group_key r = key ∧
      Forall (λ r', group_key r' ≠ key) l1 ∧
      triple g = triple r ∧ vendor g = vendor r ∧
      productType g = productType r.
Proof.
  induction rs as [|r rs IH] using rev_ind; intros g; [done|].
  rewrite bucket_snoc. case_decide as Hkey.
  - destruct (bucket key rs) as [g0|] eqn:Hb; intros [= <-].
    + destruct (IH g0 eq_refl) as (l1 & r0 & l2 & -> & ? & ? & ? & ? & ?).
      exists l1, r0, (l2 ++ [r]). by rewrite <- app_assoc.
    + exists rs, r, []. by apply bucket_None in Hb.
  - intros Hb. destruct (IH g Hb) as (l1 & r0 & l2 & -> & ? & ? & ? & ? & ?).
    exists l1, r0, (l2 ++ [r]). by rewrite <- app_assoc.
Qed.

Lemma triple_group_key (a b : Row) : triple a = triple b → group_key a = group_key b.
Proof. unfold triple, group_key. by intros [= -> -> ->]. Qed.

Lemma bucket_key (key : string) (rs : list Row) (g : Row) :
  bucket key rs = Some g → group_key g = key.
Proof.
  intros Hb. destruct (bucket_first key rs g Hb)
    as (l1 & r & l2 & _ & <- & _ & Ht & _). by apply triple_group_key.
Qed.

Lemma sold_snoc (rs : list Row) (r : Row) :
  sold (rs ++ [r]) = sold rs + netItemsSold r.
Proof.
  unfold sold. induction rs as [|r' rs IH]; csimpl; [lia|].
  rewrite IH. lia.
Qed.

Lemma bucket_sold (key : string) (rs : list Row) :
  from_option netItemsSold 0 (bucket key rs)
  = sold (filter (λ r, group_key r = key) rs).
Proof.
  induction rs as [|r rs IH] using rev_ind; [done|].
  rewrite bucket_snoc, filter_app. case_decide as Hkey.
  - rewrite filter_cons_True, filter_nil, sold_snoc, <- IH by done.
    by destruct (bucket key rs).
  - by rewrite filter_cons_False, filter_nil, app_nil_r.
Qed.

Lemma last_reported_snoc (loc : string) (rs : list Row) (r : Row) :
  last_reported loc (rs ++ [r])
  = match locations r !! loc with
    | Some v => Some v
    | None => last_reported loc rs
    end.
Proof.
  unfold last_reported. rewrite omap_app. csimpl.
  destruct (locations r !! loc) as [v|].
  - apply last_snoc.
  - by rewrite app_nil_r.
Qed.

Lemma bucket_locations (key loc : string) (rs : list Row) :
  Forall (λ r, plain_object (locations r)) rs →
  from_option locations ∅ (bucket key rs) !! loc
  = last_reported loc (filter (λ r, group_key r = key) rs).
Proof.
  induction rs as [|r rs IH] using rev_ind; intros Hplain; [done|].
  rewrite Forall_app, Forall_singleton in Hplain. destruct Hplain as [Hrs Hr].
  rewrite bucket_snoc, filter_app. case_decide as Hkey.
  - rewrite filter_cons_True, filter_nil, last_reported_snoc, <- IH by done.
    cbn [from_option absorb locations]. rewrite (delete_id _ _ Hr).
    rewrite lookup_union. destruct (locations r !! loc) as [v|].
    + by destruct (locations (default (fresh r) (bucket key rs)) !! loc).
    + destruct (bucket key rs) as [g0|]; simpl.
      * by destruct (locations g0 !! loc).
      * by rewrite lookup_empty.
  - rewrite filter_cons_False, filter_nil, app_nil_r by done. by apply IH.
Qed.

(** ** Sorting *)

Lemma sort_insert_perm (comparefn : Row → Row → Z) (x : Row) (l : list Row) :
  sort_insert comparefn x l ≡ₚ x :: l.
Proof.
  induction l as [|y l IH]; [done|]. simpl. case_decide; [|done].
  rewrite IH. apply Permutation_swap.
Qed.

Lemma Array_sort_perm (comparefn : Row → Row → Z) (l : list Row) :
  Array_sort comparefn l ≡ₚ l.
Proof.
  induction l as [|x l IH]; [done|]. simpl.
  by rewrite sort_insert_perm, IH.
Qed.

Lemma sort_insert_Sorted (comparefn : Row → Row → Z) (x : Row) (l : list Row) :
  (∀ a b, 0 < comparefn a b → comparefn b a ≤ 0) →
  Sorted (λ a b, comparefn a b ≤ 0) l →
  Sorted (λ a b, comparefn a b ≤ 0) (sort_insert comparefn x l).
Proof.
  intros Hanti. induction 1 as [|y l Hl IH Hhd]; simpl.
  - repeat constructor.
  - case_decide as Hxy.
    + constructor; [done|].
      destruct Hhd as [|z l Hyz]; simpl.
      * constructor. by apply Hanti.
      * case_decide; constructor; [done | by apply Hanti].
    + repeat constructor; [done | done | lia].
Qed.

Lemma Array_sort_Sorted (comparefn : Row → Row → Z) (l : list Row) :
  (∀ a b, 0 < comparefn a b → comparefn b a ≤ 0) →
  Sorted (λ a b, comparefn a b ≤ 0) (Array_sort comparefn l).
Proof.
  intros Hanti. induction l as [|x l IH]; simpl.
  - constructor.
  - by apply sort_insert_Sorted.
Qed.

(** ** The final rows *)

Lemma elem_of_final_rows (rs : list Row) (g : Row) :
  g ∈ final_rows rs ↔ bucket (group_key g) rs = Some g.
Proof.
  unfold final_rows, Object_values. rewrite Array_sort_perm.
  rewrite list_elem_of_fmap. split.
  - intros [[k g'] [-> Hin]]. simpl.
    pose proof (grouped_get_NoDup _ _ _ (group_rows_NoDup rs) Hin) as Hget.
    rewrite group_rows_bucket in Hget.
    by rewrite (bucket_key _ _ _ Hget).
  - intros Hb. rewrite <- group_rows_bucket in Hb.
    apply grouped_get_elem_of in Hb. by exists (group_key g, g).
Qed.

Lemma final_rows_keys_NoDup (rs : list Row) :
  NoDup (group_key <$> final_rows rs).
Proof.
  unfold final_rows, Object_values. rewrite Array_sort_perm.
  assert (group_key <$> (group_rows rs).*2 = (group_rows rs).*1) as ->;
    [|apply group_rows_NoDup].
  rewrite <- list_fmap_compose. apply list_fmap_ext.
  intros i [k g] Hi. simpl.
  apply list_elem_of_lookup_2 in Hi.
  pose proof (grouped_get_NoDup _ _ _ (group_rows_NoDup rs) Hi) as Hget.
  rewrite group_rows_bucket in Hget. by apply bucket_key in Hget.
Qed.

Lemma filter_key_unique (l : list Row) (g : Row) :
  NoDup (group_key <$> l) → g ∈ l →
  filter (λ g', group_key g' = group_key g) l = [g].
Proof.
  induction l as [|x l IH]; csimpl.
  - intros _ Hin. by apply elem_of_nil in Hin.
  - rewrite NoDup_cons. intros [Hx Hnd] Hin.
    assert (∀ y, y ∈ l → group_key y ≠ group_key x) as Hother.
    { intros y Hy Heq. apply Hx. rewrite <- Heq.
      apply list_elem_of_fmap. by exists y. }
    apply elem_of_cons in Hin as [->|Hin].
    + rewrite filter_cons_True by done. f_equal.
      induction l as [|y l IHl]; [done|].
      rewrite filter_cons_False; [|apply Hother, list_elem_of_here].
      apply IHl.
      * intros _ Hin. exfalso. eapply Hother; [|done].
        by apply list_elem_of_further.
      * intros Hin. apply Hx. csimpl. by apply list_elem_of_further.
      * by apply NoDup_cons in Hnd as [_ ?].
      * intros z Hz. apply Hother. by apply list_elem_of_further.
    + rewrite filter_cons_False; [by apply IH|].
      intros Heq. by apply (Hother g).
Qed.

(** ** Grouping: the aggregate rows *)

Lemma bar_prefix_inj (a a' x x' : string) :
  no_bar a → no_bar a' →
  a +:+ "||" +:+ x = a' +:+ "||" +:+ x' → a = a' ∧ x = x'.
Proof.
  assert (∀ c s t, String c s +:+ t = String c (s +:+ t)) as Hcons by done.
  assert (∀ t, "" +:+ t = t) as Hnil by done.
  revert a'. induction a as [|c a IH]; intros [|c' a'];
    rewrite ?Hcons, ?Hnil; cbn [no_bar].
  - intros _ _ [= ->]. done.
  - intros _ [Hc _] [= <- _]. done.
  - intros [Hc _] _ [= -> _]. done.
  - intros [_ Ha] [_ Ha'] [= -> Heq].
    destruct (IH a' Ha Ha' Heq) as [-> ->]. done.
Qed.

Lemma no_bar_app (a b : string) : no_bar (a +:+ b) ↔ no_bar a ∧ no_bar b.
Proof.
  induction a as [|c a IH].
  - change ("" +:+ b) with b. cbn [no_bar]. split; [done | by intros [_ ?]].
  - change (String c a +:+ b) with (String c (a +:+ b)). cbn [no_bar].
    rewrite IH. split; [by intros [? [? ?]] | by intros [[? ?] ?]].
Qed.

(** Every key holds the delimiter: a key is never [__proto__] nor an
    integer index, which [grouped], a plain object, would treat apart. *)
Lemma group_key_has_bar (r : Row) :
  ¬ no_bar (group_key r) ∧ group_key r ≠ "__proto__".
Proof.
  assert (¬ no_bar (group_key r)) as Hbar.
  { unfold group_key. rewrite !no_bar_app. cbn [no_bar].
    intros (_ & (Hbar & _) & _). by apply Hbar. }
  split; [done|]. intros Heq. apply Hbar. rewrite Heq.
  cbn [no_bar]. repeat split; discriminate.
Qed.

(** Without a bar in the titles, the key stands for the triple. *)
Lemma group_key_inj (a b : Row) :
  no_bar (productTitle a) → no_bar (productVariantTitle a) →
  no_bar (productTitle b) → no_bar (productVariantTitle b) →
  group_key a = group_key b → triple a = triple b.
Proof.
  unfold group_key, triple. intros Ha1 Ha2 Hb1 Hb2 Heq.
  apply bar_prefix_inj in Heq as [-> Heq]; [|done..].
  apply bar_prefix_inj in Heq as [-> ->]; done.
Qed.

(** C3, as the code has it.  The rows are grouped by the key string
    [productTitle||variantTitle||sku].  All rows of one key (among them
    all rows of one triple, and no others when the titles hold no bar)
    merge into exactly one aggregate row; its quantity is the sum of their
    quantities, and each location of its stock holds what the last of
    these rows that reports the location says. *)
Theorem rows_of_one_key_merge_into_one_aggregate
    (rawRows : list Row) (r : Row) :
  Forall (λ r', plain_object (locations r')) rawRows →
  r ∈ rawRows →
  let merged := filter (λ r', group_key r' = group_key r) rawRows in
  (∀ r', r' ∈ rawRows → triple r' = triple r → r' ∈ merged) ∧
  (∀ r', r' ∈ merged →
     no_bar (productTitle r) → no_bar (productVariantTitle r) →
     no_bar (productTitle r') → no_bar (productVariantTitle r') →
     triple r' = triple r) ∧
  ∃ g, filter (λ g', group_key g' = group_key r) (final_rows rawRows) = [g] ∧
       netItemsSold g = sold merged ∧
       ∀ loc, locations g !! loc = last_reported loc merged.
Proof.
  intros Hplain Hin merged. split; [|split].
  - intros r' Hr' Ht. apply list_elem_of_filter. split; [|done].
    by apply triple_group_key.
  - intros r' Hr' ? ? ? ?. apply list_elem_of_filter in Hr' as [Hkey _].
    by apply group_key_inj.
  - destruct (bucket (group_key r) rawRows) as [g|] eqn:Hb.
    2:{ apply bucket_None in Hb. rewrite Forall_forall in Hb.
        by destruct (Hb r Hin). }
    pose proof (bucket_key _ _ _ Hb) as Hkey.
    exists g. split; [|split].
    + rewrite <- Hkey. apply filter_key_unique.
      * apply final_rows_keys_NoDup.
      * apply elem_of_final_rows. by rewrite Hkey.
    + pose proof (bucket_sold (group_key r) rawRows) as Hsold.
      by rewrite Hb in Hsold.
    + intros loc.
      pose proof (bucket_locations (group_key r) loc rawRows Hplain) as Hloc.
      by rewrite Hb in Hloc.
Qed.

(** C10. The vendor and the product type of an aggregate row are those of
    the first row, in production order, that has the row's triple of
    product title, variant title and SKU; what later rows of that triple
    say is not looked at. *)
Theorem aggregate_keeps_first_vendor_and_type (rawRows : list Row) (g : Row) :
  g ∈ final_rows rawRows →
  ∃ l1 r l2,
    rawRows = l1 ++ r :: l2 ∧
    triple r = triple g ∧
    Forall (λ r', triple r' ≠ triple g) l1 ∧
    vendor g = vendor r ∧ productType g = productType r.
Proof.
  intros Hin. apply elem_of_final_rows in Hin.
  destruct (bucket_first _ _ _ Hin)
    as (l1 & r & l2 & -> & Hkey & Hl1 & Ht & Hv & Hp).
  exists l1, r, l2. repeat split; try done.
  eapply Forall_impl; [exact Hl1|]. intros r' Hr' Heq. apply Hr'.
  by apply triple_group_key.
Qed.

(** C5. The rows of the result are in non-decreasing order of SKU under
    [localeCompare]: each row's SKU compares less than or equal to the
    SKU of the row after it. *)
Theorem rows_sorted_by_sku :
  (∀ a b, 0 < localeCompare a b → localeCompare b a ≤ 0) →
  (∀ allOrders now startDateStr endDateStr,
     Sorted (λ a b, localeCompare (sku a) (sku b) ≤ 0)
       (rows (report allOrders now startDateStr endDateStr))) ∧
  (∀ formData remote now result,
     action formData remote now = Some result →
     Sorted (λ a b, localeCompare (sku a) (sku b) ≤ 0) (rows result)).
Proof.
  intros Hanti.
  assert (∀ allOrders now startDateStr endDateStr,
            Sorted (λ a b, localeCompare (sku a) (sku b) ≤ 0)
              (rows (report allOrders now startDateStr endDateStr))) as Hrep.
  { intros allOrders now startDateStr endDateStr. unfold report.
    destruct (build_rows allOrders) as [rawRows names]. simpl.
    apply (Array_sort_Sorted (λ a b, localeCompare (sku a) (sku b))).
    intros a b. apply Hanti. }
  split; [done|]. intros formData remote now result. unfold action.
  destruct (fetch_loop _ _ remote [] None true); [|done].
  intros [= <-]. apply Hrep.
Qed.

(** ** Flattening *)



Lemma obj_set_lookup (o : gmap string Stock) (k loc : string) (v : Stock) :
  obj_set o k v !! loc
  = if decide (k = loc ∧ k ≠ "__proto__") then Some v else o !! loc.
Proof.
  unfold obj_set. destruct (decide (k = "__proto__")) as [->|Hk].
  - rewrite decide_False; [done | by intros [_ ?]].
  - destruct (decide (k = loc)) as [->|Hne].
    + rewrite decide_True by done. apply lookup_insert_eq.
    + rewrite decide_False by (by intros [? _]). by apply lookup_insert_ne.
Qed.

(** The two parts of the state of the levels loop go their own ways. *)
Lemma level_fold (levels : list (Edge InventoryLevel.t)) :
  ∀ names locData,
    fold_left level_step levels (names, locData)
    = (fold_left (λ s e, Set_add s (level_loc (node e))) levels names,
       fold_left (λ o e, obj_set o (level_loc (node e)) (level_stock (node e)))
         levels locData).
Proof.
  induction levels as [|e levels IH]; intros names locData; [done|].
  cbn [fold_left]. unfold level_step at 2. by rewrite IH.
Qed.



(** In [locData] the last level written under a key wins. *)
Lemma level_fold_last_write (levels : list (Edge InventoryLevel.t))
    (loc : string) (locData : gmap string Stock) :
  loc ≠ "__proto__" →
  fold_left (λ o e, obj_set o (level_loc (node e)) (level_stock (node e)))
    levels locData !! loc
  = match last (filter (λ e, level_loc (node e) = loc) levels) with
    | Some e => Some (level_stock (node e))
    | None => locData !! loc
    end.
Proof.
  intros Hloc. induction levels as [|e levels IH] using rev_ind; [done|].
  rewrite fold_left_app, filter_app. cbn [fold_left].
  rewrite obj_set_lookup.
  destruct (decide (level_loc (node e) = loc)) as [He|He].
  - rewrite decide_True by (split; congruence).
    rewrite filter_cons_True, filter_nil by done. by rewrite last_snoc.
  - rewrite decide_False by (by intros [? _]).
    rewrite filter_cons_False, filter_nil, app_nil_r by done. apply IH.
Qed.

Lemma level_fold_plain (levels : list (Edge InventoryLevel.t)) :
  ∀ locData, plain_object locData →
    plain_object
      (fold_left (λ o e, obj_set o (level_loc (node e)) (level_stock (node e)))
         levels locData).
Proof.
  induction levels as [|e levels IH]; intros locData Hplain; [done|].
  cbn [fold_left]. apply IH. unfold plain_object.
  rewrite obj_set_lookup. by rewrite decide_False by (by intros [-> ?]).
Qed.

Lemma lineItem_step_row (rawRows : list Row) (names : list string)
    (liEdge : Edge LineItem.t) :
  lineItem_step (rawRows, names) liEdge
  = (rawRows ++ [flat_row liEdge],
     fold_left (λ s e, Set_add s (level_loc (node e)))
       (lineItem_levels (node liEdge)) names).
Proof.
  unfold lineItem_step, flat_row. by rewrite !level_fold.
Qed.

Lemma lineItems_fold (lis : list (Edge LineItem.t)) :
  ∀ rawRows names,
    (fold_left lineItem_step lis (rawRows, names)).1
    = rawRows ++ (flat_row <$> lis).
Proof.
  induction lis as [|li lis IH]; intros rawRows names.
  - by rewrite app_nil_r.
  - cbn [fold_left]. rewrite lineItem_step_row, IH, fmap_cons.
    by rewrite <- app_assoc.
Qed.



Lemma build_rows_fold (allOrders : list (Edge Order.t)) :
  ∀ st, (fold_left order_step allOrders st).1
        = st.1 ++ (flat_row <$> lineItems_of allOrders).
Proof.
  unfold lineItems_of.
  induction allOrders as [|o allOrders IH]; intros [rawRows names].
  - by rewrite app_nil_r.
  - cbn [fold_left]. rewrite IH, bind_cons. unfold order_step.
    rewrite lineItems_fold. by rewrite fmap_app, app_assoc.
Qed.

Lemma build_rows_flat (allOrders : list (Edge Order.t)) :
  (build_rows allOrders).1 = flat_row <$> lineItems_of allOrders.
Proof. unfold build_rows. by rewrite build_rows_fold. Qed.



(** The rows the flattener builds have plain location maps. *)
Lemma build_rows_plain (allOrders : list (Edge Order.t)) :
  Forall (λ r, plain_object (locations r)) (build_rows allOrders).1.
Proof.
  rewrite build_rows_flat. apply Forall_fmap, Forall_forall.
  intros liEdge _. unfold compose, flat_row. rewrite level_fold. simpl.
  by apply level_fold_plain.
Qed.

Lemma final_rows_one_per_key (rs : list Row) (r : Row) :
  r ∈ rs →
  ∃ g, bucket (group_key r) rs = Some g ∧
       filter (λ g', group_key g' = group_key r) (final_rows rs) = [g].
Proof.
  intros Hin. destruct (bucket (group_key r) rs) as [g|] eqn:Hb.
  2:{ apply bucket_None in Hb. rewrite Forall_forall in Hb.
      by destruct (Hb r Hin). }
  exists g. split; [done|]. rewrite <- (bucket_key _ _ _ Hb).
  apply filter_key_unique; [apply final_rows_keys_NoDup|].
  apply elem_of_final_rows. by rewrite (bucket_key _ _ _ Hb).
Qed.



(** ** The range of the matched orders *)



(** * Further properties of the action and of the table *)

(** ** The location names *)

Lemma elem_of_Set_add (s : list string) (x y : string) :
  y ∈ Set_add s x ↔ y ∈ s ∨ y = x.
Proof.
  unfold Set_add. case_decide as Hx.
  - split; [by left | intros [?| ->]; done].
  - rewrite elem_of_app, list_elem_of_singleton. done.
Qed.


Lemma Set_add_fold_elem (xs : list string) :
  ∀ s y, y ∈ fold_left Set_add xs s ↔ y ∈ s ∨ y ∈ xs.
Proof.
  induction xs as [|x xs IH]; intros s y; cbn [fold_left].
  - split; [by left | intros [?|H]; [done | by apply elem_of_nil in H]].
  - rewrite IH, elem_of_Set_add, elem_of_cons. split.
    + intros [[?| ->]|?]; auto.
    + intros [?|[->|?]]; auto.
Qed.


Lemma level_names_fold (levels : list (Edge InventoryLevel.t)) :
  ∀ names,
    fold_left (λ s e, Set_add s (level_loc (node e))) levels names
    = fold_left Set_add (level_loc ∘ node <$> levels) names.
Proof.
  induction levels as [|e levels IH]; intros names; [done|].
  rewrite fmap_cons. cbn [fold_left]. apply IH.
Qed.

Lemma lineItems_fold_names (lis : list (Edge LineItem.t)) :
  ∀ rawRows names,
    (fold_left lineItem_step lis (rawRows, names)).2
    = fold_left Set_add
        (level_loc ∘ node <$> (lis ≫= λ li, lineItem_levels (node li))) names.
Proof.
  induction lis as [|li lis IH]; intros rawRows names; [done|].
  cbn [fold_left]. rewrite lineItem_step_row, IH, level_names_fold.
  by rewrite bind_cons, fmap_app, fold_left_app.
Qed.

Lemma build_rows_names_fold (allOrders : list (Edge Order.t)) :
  ∀ rawRows names,
    (fold_left order_step allOrders (rawRows, names)).2
    = fold_left Set_add (level_loc ∘ node <$> levels_of allOrders) names.
Proof.
  unfold levels_of, lineItems_of.
  induction allOrders as [|o allOrders IH]; intros rawRows names; [done|].
  cbn [fold_left]. unfold order_step at 2.
  destruct (fold_left lineItem_step
              (LineItems.edges (Order.lineItems (node o))) (rawRows, names))
    as [rawRows' names'] eqn:Hstep.
  rewrite IH. rewrite !bind_cons, bind_app, fmap_app, fold_left_app.
  f_equal. rewrite <- lineItems_fold_names with (rawRows := rawRows).
  by rewrite Hstep.
Qed.

Lemma report_fields (allOrders : list (Edge Order.t)) (now : string)
    (startDateStr endDateStr : option string) :
  rows (report allOrders now startDateStr endDateStr)
  = final_rows (build_rows allOrders).1 ∧
  locationNames (report allOrders now startDateStr endDateStr)
  = (build_rows allOrders).2.
Proof. unfold report. by destruct (build_rows allOrders). Qed.

Lemma elem_of_location_names (allOrders : list (Edge Order.t)) (x : string) :
  x ∈ (build_rows allOrders).2 ↔
  ∃ lvlEdge, lvlEdge ∈ levels_of allOrders ∧ level_loc (node lvlEdge) = x.
Proof.
  unfold build_rows. rewrite build_rows_names_fold, Set_add_fold_elem.
  rewrite list_elem_of_fmap. split.
  - intros [H|(e & -> & He)]; [by apply elem_of_nil in H | by exists e].
  - intros (e & He & <-). right. by exists e.
Qed.


(** ** Rows and columns *)

Lemma last_reported_Some (loc : string) (rs : list Row) (v : Stock) :
  last_reported loc rs = Some v →
  ∃ r, r ∈ rs ∧ locations r !! loc = Some v.
Proof.
  unfold last_reported. intros Hlast. apply last_Some_elem_of in Hlast.
  by apply list_elem_of_omap in Hlast.
Qed.

Lemma last_reported_is_Some (loc : string) (rs : list Row) (r : Row) :
  r ∈ rs → is_Some (locations r !! loc) → is_Some (last_reported loc rs).
Proof.
  intros Hin [v Hv]. unfold last_reported. apply last_is_Some.
  intros Hnil.
  assert (v ∈ omap (λ r, locations r !! loc) rs) as Hv'.
  { apply list_elem_of_omap. by exists r. }
  rewrite Hnil in Hv'. by apply elem_of_nil in Hv'.
Qed.

(** What a flat row holds under a location: the stock of the last level of
    its line item filed under it. *)
Lemma flat_row_locations (liEdge : Edge LineItem.t) (loc : string) :
  loc ≠ "__proto__" →
  locations (flat_row liEdge) !! loc
  = level_stock ∘ node
      <$> last (filter (λ e, level_loc (node e) = loc)
                  (lineItem_levels (node liEdge))).
Proof.
  intros Hloc. unfold flat_row. rewrite level_fold. simpl.
  rewrite level_fold_last_write by done.
  by destruct (last _).
Qed.

Lemma flat_row_plain (liEdge : Edge LineItem.t) :
  plain_object (locations (flat_row liEdge)).
Proof.
  unfold flat_row. rewrite level_fold. simpl. by apply level_fold_plain.
Qed.

Lemma elem_of_levels_of (allOrders : list (Edge Order.t))
    (lvlEdge : Edge InventoryLevel.t) :
  lvlEdge ∈ levels_of allOrders ↔
  ∃ liEdge, liEdge ∈ lineItems_of allOrders ∧
            lvlEdge ∈ lineItem_levels (node liEdge).
Proof.
  unfold levels_of. rewrite list_elem_of_bind. split.
  - intros (li & ? & ?). by exists li.
  - intros (li & ? & ?). by exists li.
Qed.

Lemma row_keys_are_columns (allOrders : list (Edge Order.t)) (g : Row)
    (loc : string) :
  g ∈ final_rows (build_rows allOrders).1 →
  is_Some (locations g !! loc) →
  loc ∈ (build_rows allOrders).2.
Proof.
  intros Hg [v Hv]. apply elem_of_final_rows in Hg.
  pose proof (bucket_locations (group_key g) loc _ (build_rows_plain allOrders))
    as Hloc.
  rewrite Hg in Hloc. simpl in Hloc. rewrite Hv in Hloc.
  symmetry in Hloc. apply last_reported_Some in Hloc as (r & Hr & Hrv).
  apply list_elem_of_filter in Hr as [_ Hr].
  rewrite build_rows_flat in Hr.
  apply list_elem_of_fmap in Hr as (li & -> & Hli).
  destruct (decide (loc = "__proto__")) as [->|Hne].
  { pose proof (flat_row_plain li) as Hplain. unfold plain_object in Hplain.
    congruence. }
  rewrite flat_row_locations in Hrv by done.
  destruct (last _) as [e|] eqn:Hlast; [|done].
  apply last_Some_elem_of, list_elem_of_filter in Hlast as [He Hin].
  apply elem_of_location_names. exists e. split; [|done].
  apply elem_of_levels_of. by exists li.
Qed.

Lemma columns_have_values (allOrders : list (Edge Order.t)) (loc : string) :
  loc ∈ (build_rows allOrders).2 → loc ≠ "__proto__" →
  ∃ g, g ∈ final_rows (build_rows allOrders).1 ∧
       is_Some (locations g !! loc).
Proof.
  intros Hloc Hne. apply elem_of_location_names in Hloc as (e & He & Hkey).
  apply elem_of_levels_of in He as (li & Hli & He).
  assert (is_Some (locations (flat_row li) !! loc)) as Hrow.
  { rewrite flat_row_locations by done.
    destruct (last _) as [e'|] eqn:Hlast; [by eexists|].
    apply last_None in Hlast.
    assert (e ∈ filter (λ e, level_loc (node e) = loc)
                  (lineItem_levels (node li))) as Hf
      by by apply list_elem_of_filter.
    rewrite Hlast in Hf. by apply elem_of_nil in Hf. }
  assert (flat_row li ∈ (build_rows allOrders).1) as Hin.
  { rewrite build_rows_flat. apply list_elem_of_fmap. by exists li. }
  destruct (final_rows_one_per_key _ _ Hin) as (g & Hb & _).
  exists g. split.
  - apply elem_of_final_rows. by rewrite (bucket_key _ _ _ Hb).
  - pose proof (bucket_locations (group_key (flat_row li)) loc _
                  (build_rows_plain allOrders)) as Hg.
    rewrite Hb in Hg. simpl in Hg. rewrite Hg.
    apply last_reported_is_Some with (flat_row li); [|done].
    by apply list_elem_of_filter.
Qed.

(** X2. Every location a row of the result holds a stock for is one of
    the location names, so it has a column; and every location name other
    than [__proto__] has a stock in at least one row. *)
Theorem columns_are_the_locations_of_the_rows
    (allOrders : list (Edge Order.t)) (now : string)
    (startDateStr endDateStr : option string) :
  let data := report allOrders now startDateStr endDateStr in
  (∀ g loc, g ∈ rows data → is_Some (locations g !! loc) →
            loc ∈ locationNames data) ∧
  (∀ loc, loc ∈ locationNames data → loc ≠ "__proto__" →
          ∃ g, g ∈ rows data ∧ is_Some (locations g !! loc)).
Proof.
  intros data. subst data.
  destruct (report_fields allOrders now startDateStr endDateStr) as [-> ->].
  split.
  - intros g loc. apply row_keys_are_columns.
  - intros loc. apply columns_have_values.
Qed.

(** ** Quantities and keys through the grouping *)

Lemma sold_app (l l' : list Row) : sold (l ++ l') = sold l + sold l'.
Proof.
  unfold sold. induction l as [|r l IH]; csimpl; [lia|]. rewrite IH. lia.
Qed.

Lemma sold_perm (l l' : list Row) : l ≡ₚ l' → sold l = sold l'.
Proof.
  unfold sold. induction 1 as [|r l l' _ IH|r r' l|l l' l'' _ IH1 _ IH2];
    csimpl; lia.
Qed.

Lemma sold_alter (f : Row → Row) (n : Z) (key : string)
    (grouped : list (string * Row)) :
  (∀ g, netItemsSold (f g) = netItemsSold g + n) →
  sold (grouped_alter f key grouped).*2
  = sold grouped.*2 +
    match grouped_get grouped key with Some _ => n | None => 0 end.
Proof.
  intros Hf. unfold sold.
  induction grouped as [|[k g] grouped IH]; csimpl; [lia|].
  case_decide; csimpl; [rewrite Hf | rewrite IH]; lia.
Qed.

Lemma group_step_sold (grouped : list (string * Row)) (r : Row) :
  sold (group_step grouped r).*2 = sold grouped.*2 + netItemsSold r.
Proof.
  rewrite group_step_alter.
  rewrite (sold_alter _ (netItemsSold r)) by done.
  destruct (grouped_get grouped (group_key r)) as [g|] eqn:Hget.
  - by rewrite Hget.
  - rewrite grouped_get_snoc by done. rewrite decide_True by done.
    rewrite fmap_app, sold_app. unfold sold. simpl. lia.
Qed.

Lemma group_rows_sold (rs : list Row) :
  ∀ grouped,
    sold (fold_left group_step rs grouped).*2 = sold grouped.*2 + sold rs.
Proof.
  induction rs as [|r rs IH]; intros grouped; cbn [fold_left].
  - unfold sold at 3. simpl. lia.
  - rewrite IH, group_step_sold. unfold sold at 4. csimpl.
    fold (sold rs). lia.
Qed.

Lemma final_rows_sold (rs : list Row) : sold (final_rows rs) = sold rs.
Proof.
  unfold final_rows, Object_values.
  rewrite (sold_perm _ _ (Array_sort_perm _ _)).
  unfold group_rows. rewrite group_rows_sold. unfold sold at 1. simpl. lia.
Qed.

(** X3. Grouping neither loses nor adds a sale: the quantities of the rows
    of the result add up to the quantities of all line items of the
    matched orders. *)
Theorem report_keeps_the_total_sold
    (allOrders : list (Edge Order.t)) (now : string)
    (startDateStr endDateStr : option string) :
  sold (rows (report allOrders now startDateStr endDateStr))
  = foldr Z.add 0 (LineItem.quantity ∘ node <$> lineItems_of allOrders).
Proof.
  rewrite (proj1 (report_fields allOrders now startDateStr endDateStr)).
  rewrite final_rows_sold, build_rows_flat. unfold sold.
  by rewrite <- list_fmap_compose.
Qed.

Lemma group_rows_keys (rs : list Row) :
  ∀ grouped,
    (fold_left group_step rs grouped).*1
    = fold_left Set_add (group_key <$> rs) grouped.*1.
Proof.
  induction rs as [|r rs IH]; intros grouped; [done|].
  rewrite fmap_cons. cbn [fold_left]. by rewrite IH, group_step_keys.
Qed.

Lemma elem_of_final_rows_keys (rs : list Row) (key : string) :
  key ∈ group_key <$> final_rows rs ↔ key ∈ group_key <$> rs.
Proof.
  rewrite !list_elem_of_fmap. split.
  - intros (g & -> & Hg). apply elem_of_final_rows in Hg.
    destruct (bucket_first _ _ _ Hg) as (l1 & r & l2 & -> & Hkey & _).
    exists r. split; [done|]. apply elem_of_app. right. apply list_elem_of_here.
  - intros (r & -> & Hr).
    destruct (final_rows_one_per_key _ _ Hr) as (g & Hb & _).
    exists g. split; [by rewrite (bucket_key _ _ _ Hb)|].
    apply elem_of_final_rows. by rewrite (bucket_key _ _ _ Hb).
Qed.

(** X4. The rows of the result have pairwise different keys, and their
    keys are the keys of the raw rows: there is one row per key, never
    more rows than line items, and no row at all only when there is no
    raw row. *)
Theorem one_aggregate_row_per_key (rawRows : list Row) :
  NoDup (group_key <$> final_rows rawRows) ∧
  (∀ key, key ∈ group_key <$> final_rows rawRows ↔
          key ∈ group_key <$> rawRows) ∧
  (length (final_rows rawRows) ≤ length rawRows)%nat ∧
  (final_rows rawRows = [] ↔ rawRows = []).
Proof.
  split; [apply final_rows_keys_NoDup|]. split; [apply elem_of_final_rows_keys|].
  split.
  - rewrite <- (length_fmap group_key (final_rows rawRows)).
    rewrite <- (length_fmap group_key rawRows).
    apply submseteq_length, NoDup_submseteq; [apply final_rows_keys_NoDup|].
    intros key. apply elem_of_final_rows_keys.
  - split.
    + intros Hnil. destruct rawRows as [|r rawRows]; [done|]. exfalso.
      assert (group_key r ∈ group_key <$> final_rows (r :: rawRows)) as Hin.
      { apply elem_of_final_rows_keys. rewrite fmap_cons.
        apply list_elem_of_here. }
      rewrite Hnil in Hin. by apply elem_of_nil in Hin.
    + by intros ->.
Qed.

(** ** The order of rows of the same SKU *)

Lemma sort_insert_filter (comparefn : Row → Row → Z) (P : Row → Prop)
    `{!∀ x, Decision (P x)} (x : Row) (l : list Row) :
  (∀ a b, 0 < comparefn a b → P a → P b → False) →
  filter P (sort_insert comparefn x l) = filter P (x :: l).
Proof.
  intros Hsep. induction l as [|y l IH]; [done|]. simpl.
  case_decide as Hxy; [|done].
  rewrite (filter_cons _ y), IH, !(filter_cons _ x), (filter_cons _ y).
  destruct (decide (P x)) as [Hx|Hx], (decide (P y)) as [Hy|Hy]; try done.
  destruct (Hsep x y Hxy Hx Hy).
Qed.

Lemma Array_sort_filter (comparefn : Row → Row → Z) (P : Row → Prop)
    `{!∀ x, Decision (P x)} (l : list Row) :
  (∀ a b, 0 < comparefn a b → P a → P b → False) →
  filter P (Array_sort comparefn l) = filter P l.
Proof.
  intros Hsep. induction l as [|x l IH]; [done|]. simpl.
  rewrite sort_insert_filter by done. by rewrite !(filter_cons _ x), IH.
Qed.

(** X5. The sort is stable on equal SKUs: the rows of one SKU stand in
    the result in the order their keys were entered in [grouped], which is
    the order in which the keys first appear among the raw rows. *)
Theorem rows_of_one_sku_keep_their_first_appearance_order
    (rawRows : list Row) (k : string) :
  (∀ a b, 0 < localeCompare a b → localeCompare b a ≤ 0) →
  filter (λ g, sku g = k) (final_rows rawRows)
  = filter (λ g, sku g = k) (Object_values (group_rows rawRows)) ∧
  (group_rows rawRows).*1 = fold_left Set_add (group_key <$> rawRows) [].
Proof.
  intros Hanti. split.
  - unfold final_rows. apply Array_sort_filter.
    intros a b Hab Ha Hb. simpl in Ha, Hb. rewrite Ha, Hb in Hab.
    pose proof (Hanti k k Hab). lia.
  - unfold group_rows. apply group_rows_keys.
Qed.

(** ** No blank text in the result *)

Lemma or_else_nonempty (x : option string) (d : string) :
  d ≠ "" → or_else x d ≠ "".
Proof.
  intros Hd. unfold or_else. destruct x as [s|]; [|done]. by case_decide.
Qed.

(** X6. No row of the result has an empty product title, variant title,
    SKU, vendor or product type, and no location name is empty: an empty
    string in the payload is replaced like a missing value. *)
Theorem result_has_no_empty_text
    (allOrders : list (Edge Order.t)) (now : string)
    (startDateStr endDateStr : option string) :
  let data := report allOrders now startDateStr endDateStr in
  (∀ g, g ∈ rows data →
        productTitle g ≠ "" ∧ productVariantTitle g ≠ "" ∧ sku g ≠ "" ∧
        vendor g ≠ "" ∧ productType g ≠ "") ∧
  (∀ loc, loc ∈ locationNames data → loc ≠ "").
Proof.
  intros data. subst data.
  destruct (report_fields allOrders now startDateStr endDateStr) as [-> ->].
  split.
  - intros g Hg. apply elem_of_final_rows in Hg.
    destruct (bucket_first _ _ _ Hg) as (l1 & r & l2 & Hrows & _ & _ & Ht & Hv & Hp).
    assert (r ∈ (build_rows allOrders).1) as Hr.
    { rewrite Hrows. apply elem_of_app. right. apply list_elem_of_here. }
    rewrite build_rows_flat in Hr.
    apply list_elem_of_fmap in Hr as (li & -> & _).
    unfold triple in Ht. injection Ht as -> -> ->. rewrite Hv, Hp.
    unfold flat_row, lineItem_row. simpl.
    repeat split; by apply or_else_nonempty.
  - intros loc Hloc. apply elem_of_location_names in Hloc as (e & _ & <-).
    by apply or_else_nonempty.
Qed.

(** ** More on the fetch loop *)

(** X7. The matched orders are the fetched orders that pass the range
    test, in the order they were fetched; an order fetched twice and in
    range is matched twice. *)
Theorem matched_orders_are_the_fetched_orders_in_range
    (startDate endDate : Date) (remote : Remote) :
  accumulated (fetch_loop startDate endDate remote [] None true)
  = filter (λ edge, in_range startDate endDate edge)
      (fetched_orders startDate endDate remote [] None true).
Proof. by rewrite fetch_loop_filter. Qed.

(** X8. Once the loop is left, no further answer changes its outcome; and
    what is matched after some answers is a prefix of what is matched
    after more answers. *)
Theorem more_answers_extend_the_matched_orders
    (startDate endDate : Date) (pre rest : Remote) :
  (∀ a, fetch_loop startDate endDate pre [] None true = Ended a →
        fetch_loop startDate endDate (pre ++ rest) [] None true = Ended a) ∧
  accumulated (fetch_loop startDate endDate pre [] None true)
  `prefix_of`
  accumulated (fetch_loop startDate endDate (pre ++ rest) [] None true).
Proof.
  rewrite fetch_loop_app.
  destruct (fetch_loop startDate endDate pre [] None true) as [a|a c].
  - split; [done|]. done.
  - split; [done|]. rewrite fetch_loop_filter. cbn [accumulated].
    by apply prefix_app_r.
Qed.

(** X9. The first request is sent with a null cursor.  A further request
    is sent only after an answer without errors that holds a page with
    [hasNextPage] true, and with at most 1000 orders matched so far; its
    cursor is the [endCursor] of that page. *)
Theorem next_request_carries_the_end_cursor (startDate endDate : Date) :
  fetch_loop startDate endDate [] [] None true = Waiting [] None ∧
  ∀ (pre : Remote) (graphql : option string → Response.t)
    (a : list (Edge Order.t)) (cursor : option string),
    fetch_loop startDate endDate (pre ++ [graphql]) [] None true
    = Waiting a cursor →
    ∃ a0 cursor0 ordersConnection,
      fetch_loop startDate endDate pre [] None true = Waiting a0 cursor0 ∧
      Response.errors (graphql cursor0) = None ∧
      Response.data (graphql cursor0) ≫= Data.orders = Some ordersConnection ∧
      PageInfo.hasNextPage (Orders.pageInfo ordersConnection) = true ∧
      cursor = PageInfo.endCursor (Orders.pageInfo ordersConnection) ∧
      a = filter_page startDate endDate
            (default [] (Orders.edges ordersConnection)) a0 ∧
      (length a ≤ 1000)%nat.
Proof.
  split; [done|]. intros pre graphql a cursor. rewrite fetch_loop_app.
  destruct (fetch_loop startDate endDate pre [] None true) as [a0|a0 cursor0];
    [done|].
  cbn [fetch_loop]. unfold loop_body.
  destruct (Response.errors (graphql cursor0)) eqn:Herr; [done|].
  destruct (Response.data (graphql cursor0) ≫= Data.orders)
    as [ordersConnection|] eqn:Hdata; [|done].
  case_decide as Hcap; [done|].
  destruct (PageInfo.hasNextPage (Orders.pageInfo ordersConnection)) eqn:Hnext;
    [|done].
  intros [= <- <-]. exists a0, cursor0, ordersConnection.
  repeat split; try done. lia.
Qed.

(** X10. On a server whose time zone has a fixed offset, the adjusted end
    date is the last millisecond of the local minute of the submitted
    one: never before it, less than a minute after it, and exactly 59.999
    seconds after it when it falls on a whole minute. *)
Theorem adjusted_end_is_within_the_minute (tz e e' : Z) :
  (∀ t isUTC, LocalTZA t isUTC = tz) →
  Date_setSeconds (Some e) 59 999 = Some e' →
  e ≤ e' ≤ e + 59999 ∧
  (e' + tz) `mod` 60000 = 59999 ∧
  ((e + tz) `mod` 60000 = 0 → e' = e + 59999).
Proof.
  intros Htz. rewrite (setSeconds_fixed_offset tz e Htz).
  unfold TimeClip, end_of_minute. case_decide; [done|]. intros [= <-].
  Z.div_mod_to_equations. lia.
Qed.

Lemma fetch_loop_no_match (startDate endDate : Date) (remote : Remote) :
  (∀ edge, in_range startDate endDate edge = false) →
  ∀ allOrders cursor hasNextPage,
    accumulated
      (fetch_loop startDate endDate remote allOrders cursor hasNextPage)
    = allOrders.
Proof.
  intros Hno allOrders cursor hasNextPage. rewrite fetch_loop_filter.
  generalize (fetched_orders startDate endDate remote allOrders cursor
                hasNextPage).
  intros fetched.
  assert (filter (λ edge, in_range startDate endDate edge) fetched = []) as ->.
  { induction fetched as [|edge fetched IH]; [done|].
    rewrite filter_cons_False; [done | by apply Is_true_false]. }
  by rewrite app_nil_r.
Qed.

(** X11. When the adjusted end date is before the start date, no order is
    matched: the action returns no row and no location name, and reports
    nothing about the range. *)
Theorem end_before_start_returns_no_rows
    (formData : list (string * string)) (remote : Remote) (now : string)
    (s e' : Z) :
  Date_new (formData_get formData "startDate") = Some s →
  Date_setSeconds (Date_new (formData_get formData "endDate")) 59 999
  = Some e' →
  e' < s →
  Exists ends_fetch remote →
  ∃ result, action formData remote now = Some result ∧
            rows result = [] ∧ locationNames result = [].
Proof.
  intros Hs He Hlt Hends. unfold action. rewrite Hs, He.
  destruct (fetch_loop_ends (Some s) (Some e') remote Hends [] None true)
    as [a Ha].
  assert (accumulated (fetch_loop (Some s) (Some e') remote [] None true) = [])
    as Hacc.
  { apply fetch_loop_no_match. intros edge. apply not_true_is_false.
    rewrite in_range_true. intros (s' & t & e & [= <-] & [= <-] & _ & ? & ?).
    lia. }
  rewrite Ha in Hacc |- *. simpl in Hacc. subst a. eauto.
Qed.


(** ** The results table *)


(** ** The result after a remote error *)

(** C6. When a page fetch answers with a remote error (GraphQL errors or
    no orders payload), the loop is left without raising and the action
    returns a result made from the orders accumulated from the earlier
    pages: its rows are the aggregate of the flat rows of their line
    items (every line item's key has a row, and the quantities add up to
    those of the line items), its location names are those of their
    levels, and it is the very result an error-free run returns when the
    remote answers with an empty last page instead, so nothing in it
    tells of the error. *)
Theorem remote_error_returns_partial_report
    (formData : list (string * string)) (pre : Remote)
    (bad : option string → Response.t) (rest : Remote) (now : string) :
  remote_error bad →
  let startDateStr := formData_get formData "startDate" in
  let endDateStr := formData_get formData "endDate" in
  let startDate := Date_new startDateStr in
  let endDate := Date_setSeconds (Date_new endDateStr) 59 999 in
  let partial := accumulated (fetch_loop startDate endDate pre [] None true) in
  let result :=
    mkActionData
      (final_rows (flat_row <$> lineItems_of partial))
      (fold_left Set_add (level_loc ∘ node <$> levels_of partial) [])
      now startDateStr endDateStr in
  action formData (pre ++ bad :: rest) now = Some result ∧
  partial
  = filter (λ edge, in_range startDate endDate edge)
      (fetched_orders startDate endDate pre [] None true) ∧
  (∀ liEdge, liEdge ∈ lineItems_of partial →
     ∃ g, g ∈ rows result ∧ group_key g = group_key (flat_row liEdge)) ∧
  sold (rows result)
  = foldr Z.add 0 (LineItem.quantity ∘ node <$> lineItems_of partial) ∧
  action formData (pre ++ [empty_last_page]) now
  = action formData (pre ++ bad :: rest) now.
Proof.
  intros Hbad startDateStr endDateStr startDate endDate partial result.
  destruct (action_remote_error formData pre bad rest now Hbad)
    as [Hact Hsame].
  fold startDateStr endDateStr startDate endDate partial in Hact.
  assert (report partial now startDateStr endDateStr = result) as Hrep.
  { unfold report, result.
    pose proof (build_rows_flat partial) as Hrows.
    pose proof (build_rows_names_fold partial [] []) as Hnames.
    fold (build_rows partial) in Hnames.
    destruct (build_rows partial) as [rawRows names].
    simpl in Hrows, Hnames. by rewrite Hrows, Hnames. }
  rewrite Hrep in Hact.
  split; [exact Hact|]. split; [|split; [|split; [|exact Hsame]]].
  - subst partial. by rewrite fetch_loop_filter.
  - intros liEdge Hli. cbn [rows result].
    assert (group_key (flat_row liEdge)
            ∈ group_key <$> final_rows (flat_row <$> lineItems_of partial))
      as Hkey.
    { apply elem_of_final_rows_keys. rewrite <- list_fmap_compose.
      apply list_elem_of_fmap. by exists liEdge. }
    apply list_elem_of_fmap in Hkey as (g & Hg & Hin). by exists g.
  - cbn [rows result]. rewrite final_rows_sold. unfold sold.
    by rewrite <- list_fmap_compose.
Qed.

End Action.

(** * The properties on the sample store *)

Lemma sample_localeCompare_antisym (a b : string) :
  0 < sample_localeCompare a b → sample_localeCompare b a ≤ 0.
Proof.
  unfold sample_localeCompare. rewrite (String.compare_antisym b a).
  by destruct (String.compare a b).
Qed.

(** The scenarios of the specification: of two orders, the one created
    after the end minute is left out, and the two line items of SKU ABC123
    (3 and 5 sold, one reporting 10 at Warehouse A) make one row of 8. *)
Example scenario_range_and_merge :
  action sample_Date_parse sample_LocalTZA sample_localeCompare sample_form
    [sample_page [order_out; order_in] false] "now"
  = Some (mkActionData [row_8] ["Warehouse A"] "now"
            (Some "2024-01-01T00:00") (Some "2024-01-01T23:59")).
Proof. vm_compute. reflexivity. Qed.

(** An end date at the last representable time value: its minute ends
    beyond the range of time values, and the adjusted end date is
    invalid. *)
Example scenario_end_of_time :
  Date_setSeconds sample_LocalTZA
    (Date_new sample_Date_parse (Some "+275760-09-13T00:00:00.000Z")) 59 999
  = None.
Proof. vm_compute. reflexivity. Qed.

(** Two line items without SKU and variant title share the bucket of
    their product title. *)
Example scenario_missing_sku_collision :
  rows (report sample_localeCompare [order_na] "now" None None)
  = [mkRow "Gift" "N/A" "N/A" "Acme" "Parts" 3 ∅].
Proof. vm_compute. reflexivity. Qed.

(** C1 as stated fails: after 20 full pages [allOrders] holds 1000 orders,
    which is not more than 1000, so a 21st page is fetched and the loop is
    left with 1050 matched orders. *)
Lemma fetch_accumulates_more_than_1000 :
  fetch_loop sample_Date_parse
    (Date_new sample_Date_parse (Some "2024-01-01T00:00"))
    (Date_setSeconds sample_LocalTZA
       (Date_new sample_Date_parse (Some "2024-01-01T23:59")) 59 999)
    busy_remote [] None true
  = Ended (replicate 1050 order_in) ∧
  ¬ (length (replicate 1050 order_in) ≤ 1000)%nat.
Proof.
  split.
  - vm_compute. reflexivity.
  - rewrite length_replicate. lia.
Qed.

Lemma fetch_accumulates_at_most_cap_plus_one_page_witness :
  Forall (λ graphql : option string → Response.t,
            ∀ cursor, (length (fetched_edges (graphql cursor)) ≤ 50)%nat)
    busy_remote ∧
  (length (accumulated
             (fetch_loop sample_Date_parse
                (Date_new sample_Date_parse (Some "2024-01-01T00:00"))
                (Date_setSeconds sample_LocalTZA
                   (Date_new sample_Date_parse (Some "2024-01-01T23:59")) 59 999)
                busy_remote [] None true))
   ≤ 1000 + 50)%nat.
Proof.
  assert (Forall (λ graphql : option string → Response.t,
                    ∀ cursor, (length (fetched_edges (graphql cursor)) ≤ 50)%nat)
            busy_remote) as Hpages.
  { apply Forall_replicate. intros cursor. vm_compute. lia. }
  split; [exact Hpages|].
  apply (fetch_accumulates_at_most_cap_plus_one_page sample_Date_parse
           _ _ 50%nat busy_remote Hpages).
Defined.


(** C3 as stated fails: two rows of different triples have the same key
    string, so they merge, and the only aggregate row holds 3 where the
    rows of the first triple sum up to 1. *)
Lemma key_collision_merges_different_triples :
  triple row_bar_1 ≠ triple row_bar_2 ∧
  final_rows sample_localeCompare [row_bar_1; row_bar_2]
  = [mkRow "a||b" "c" "d" "Acme" "Parts" 3 ∅] ∧
  ¬ ∃ g, g ∈ final_rows sample_localeCompare [row_bar_1; row_bar_2] ∧
         netItemsSold g
         = sold (filter (λ r, triple r = triple row_bar_1)
                   [row_bar_1; row_bar_2]).
Proof.
  assert (final_rows sample_localeCompare [row_bar_1; row_bar_2]
          = [mkRow "a||b" "c" "d" "Acme" "Parts" 3 ∅]) as Hfinal.
  { vm_compute. reflexivity. }
  split; [discriminate|]. split; [exact Hfinal|].
  rewrite Hfinal. intros (g & Hin & Hsold).
  apply list_elem_of_singleton in Hin. subst g.
  vm_compute in Hsold. discriminate.
Qed.

Lemma rows_of_one_key_merge_into_one_aggregate_witness :
  Forall (λ r, plain_object (locations r)) [row_3; row_5] ∧
  row_3 ∈ [row_3; row_5] ∧
  ∃ g, filter (λ g', group_key g' = group_key row_3)
         (final_rows sample_localeCompare [row_3; row_5]) = [g] ∧
       netItemsSold g = 8 ∧
       locations g !! "Warehouse A" = Some (Qty 10).
Proof.
  assert (Forall (λ r, plain_object (locations r)) [row_3; row_5]) as Hplain.
  { repeat (apply Forall_cons_2; [reflexivity|]). apply Forall_nil_2. }
  assert (row_3 ∈ [row_3; row_5]) as Hin by apply list_elem_of_here.
  split; [exact Hplain|]. split; [exact Hin|].
  destruct (rows_of_one_key_merge_into_one_aggregate sample_localeCompare
              [row_3; row_5] row_3 Hplain Hin) as (_ & _ & g & Hg & Hsold & Hloc).
  exists g. split; [exact Hg|]. split.
  - rewrite Hsold. reflexivity.
  - rewrite Hloc. reflexivity.
Defined.


Lemma rows_sorted_by_sku_witness :
  (∀ a b, 0 < sample_localeCompare a b → sample_localeCompare b a ≤ 0) ∧
  Sorted (λ a b, sample_localeCompare (sku a) (sku b) ≤ 0)
    (rows (report sample_localeCompare [order_out; order_in; order_nameless]
             "now" None None)).
Proof.
  split; [exact sample_localeCompare_antisym|].
  apply (rows_sorted_by_sku sample_Date_parse sample_LocalTZA
           sample_localeCompare sample_localeCompare_antisym).
Defined.


(** C7 as stated fails: with an invalid start date and a valid end date,
    the comparison of an order of the range with the end date is true;
    only the comparison with the start date is false. *)
Lemma invalid_start_leaves_end_comparison_true :
  let startDate :=
    Date_new sample_Date_parse (formData_get garbage_form "startDate") in
  let endDate :=
    Date_setSeconds sample_LocalTZA
      (Date_new sample_Date_parse (formData_get garbage_form "endDate"))
      59 999 in
  let created :=
    Date_new sample_Date_parse (Some (Order.createdAt (node order_in))) in
  startDate = None ∧
  Date_le created endDate = true ∧
  ¬ (Date_ge created startDate = false ∧ Date_le created endDate = false).
Proof.
  split; [reflexivity|]. split; [vm_compute; reflexivity|].
  intros [_ Hle]. vm_compute in Hle. discriminate.
Qed.

Lemma invalid_date_returns_no_rows_witness :
  Date_new sample_Date_parse (formData_get garbage_form "startDate") = None ∧
  Exists ends_fetch [sample_page [order_out; order_in] false] ∧
  ∃ result,
    action sample_Date_parse sample_LocalTZA sample_localeCompare garbage_form
      [sample_page [order_out; order_in] false] "now" = Some result ∧
    rows result = [] ∧ locationNames result = [].
Proof.
  assert (Date_new sample_Date_parse (formData_get garbage_form "startDate")
          = None) as Hinv by reflexivity.
  assert (Exists ends_fetch [sample_page [order_out; order_in] false]) as Hends.
  { apply Exists_cons_hd. intros cursor. reflexivity. }
  split; [exact Hinv|]. split; [exact Hends|].
  apply (invalid_date_returns_no_rows sample_Date_parse sample_LocalTZA
           sample_localeCompare garbage_form
           [sample_page [order_out; order_in] false] "now"
           (or_introl Hinv) Hends).
Defined.

Lemma result_echoes_submitted_strings_witness :
  formData_get sample_form "startDate" = Some "2024-01-01T00:00" ∧
  formData_get sample_form "endDate" = Some "2024-01-01T23:59" ∧
  Exists ends_fetch [sample_page [order_out; order_in] false] ∧
  ∃ result,
    action sample_Date_parse sample_LocalTZA sample_localeCompare sample_form
      [sample_page [order_out; order_in] false] "now" = Some result ∧
    startDate result = Some "2024-01-01T00:00" ∧
    endDate result = Some "2024-01-01T23:59".
Proof.
  assert (Exists ends_fetch [sample_page [order_out; order_in] false]) as Hends.
  { apply Exists_cons_hd. intros cursor. reflexivity. }
  split; [reflexivity|]. split; [reflexivity|]. split; [exact Hends|].
  destruct (result_echoes_submitted_strings sample_Date_parse sample_LocalTZA
              sample_localeCompare sample_form
              [sample_page [order_out; order_in] false] "now"
              "2024-01-01T00:00" "2024-01-01T23:59" eq_refl eq_refl)
    as [Hecho Hret].
  destruct (Hret Hends) as [result Hresult].
  exists result. split; [exact Hresult|]. exact (Hecho result Hresult).
Defined.


Lemma aggregate_keeps_first_vendor_and_type_witness :
  row_8 ∈ final_rows sample_localeCompare [row_3; row_5] ∧
  ∃ l1 r l2,
    [row_3; row_5] = l1 ++ r :: l2 ∧
    triple r = triple row_8 ∧
    Forall (λ r', triple r' ≠ triple row_8) l1 ∧
    vendor row_8 = vendor r ∧ productType row_8 = productType r.
Proof.
  assert (row_8 ∈ final_rows sample_localeCompare [row_3; row_5]) as Hin.
  { assert (final_rows sample_localeCompare [row_3; row_5] = [row_8]) as ->
      by (vm_compute; reflexivity).
    apply list_elem_of_here. }
  split; [exact Hin|].
  apply (aggregate_keeps_first_vendor_and_type sample_localeCompare
           [row_3; row_5] row_8 Hin).
Defined.

(** * The further properties on the sample store *)

Lemma next_request_carries_the_end_cursor_witness :
  fetch_loop sample_Date_parse (Some 1704067200000) (Some 1704153599999)
    ([] ++ [first_page]) [] None true
  = Waiting [order_in] (Some "c") ∧
  ∃ a0 cursor0 ordersConnection,
    fetch_loop sample_Date_parse (Some 1704067200000) (Some 1704153599999)
      [] [] None true = Waiting a0 cursor0 ∧
    Response.errors (first_page cursor0) = None ∧
    Response.data (first_page cursor0) ≫= Data.orders = Some ordersConnection ∧
    PageInfo.hasNextPage (Orders.pageInfo ordersConnection) = true ∧
    Some "c" = PageInfo.endCursor (Orders.pageInfo ordersConnection) ∧
    [order_in]
    = filter_page sample_Date_parse (Some 1704067200000) (Some 1704153599999)
        (default [] (Orders.edges ordersConnection)) a0 ∧
    (length [order_in] ≤ 1000)%nat.
Proof.
  assert (fetch_loop sample_Date_parse (Some 1704067200000)
            (Some 1704153599999) ([] ++ [first_page]) [] None true
          = Waiting [order_in] (Some "c")) as Hwait
    by (vm_compute; reflexivity).
  split; [exact Hwait|].
  exact (proj2 (next_request_carries_the_end_cursor sample_Date_parse
                  (Some 1704067200000) (Some 1704153599999))
           [] first_page [order_in] (Some "c") Hwait).
Defined.

Lemma adjusted_end_is_within_the_minute_witness :
  (∀ t isUTC, sample_LocalTZA t isUTC = 0) ∧
  Date_setSeconds sample_LocalTZA (Some 1704153540000) 59 999
  = Some 1704153599999 ∧
  1704153599999 = 1704153540000 + 59999.
Proof.
  assert (∀ t isUTC, sample_LocalTZA t isUTC = 0) as Htz by reflexivity.
  assert (Date_setSeconds sample_LocalTZA (Some 1704153540000) 59 999
          = Some 1704153599999) as Hend by (vm_compute; reflexivity).
  split; [exact Htz|]. split; [exact Hend|].
  destruct (adjusted_end_is_within_the_minute sample_LocalTZA 0
              1704153540000 1704153599999 Htz Hend) as (_ & _ & Hwhole).
  apply Hwhole. reflexivity.
Defined.

Lemma end_before_start_returns_no_rows_witness :
  Date_new sample_Date_parse (formData_get reversed_form "startDate")
  = Some 1704153540000 ∧
  Date_setSeconds sample_LocalTZA
    (Date_new sample_Date_parse (formData_get reversed_form "endDate")) 59 999
  = Some 1704067259999 ∧
  1704067259999 < 1704153540000 ∧
  Exists ends_fetch [sample_page [order_out; order_in] false] ∧
  ∃ result,
    action sample_Date_parse sample_LocalTZA sample_localeCompare reversed_form
      [sample_page [order_out; order_in] false] "now" = Some result ∧
    rows result = [] ∧ locationNames result = [].
Proof.
  assert (Date_setSeconds sample_LocalTZA
            (Date_new sample_Date_parse (formData_get reversed_form "endDate"))
            59 999 = Some 1704067259999) as Hend by (vm_compute; reflexivity).
  assert (1704067259999 < 1704153540000) as Hlt by lia.
  assert (Exists ends_fetch [sample_page [order_out; order_in] false]) as Hends.
  { apply Exists_cons_hd. intros cursor. reflexivity. }
  split; [reflexivity|]. split; [exact Hend|]. split; [exact Hlt|].
  split; [exact Hends|].
  exact (end_before_start_returns_no_rows sample_Date_parse sample_LocalTZA
           sample_localeCompare reversed_form
           [sample_page [order_out; order_in] false] "now"
           1704153540000 1704067259999 eq_refl Hend Hlt Hends).
Defined.


Lemma rows_of_one_sku_keep_their_first_appearance_order_witness :
  (∀ a b, 0 < sample_localeCompare a b → sample_localeCompare b a ≤ 0) ∧
  filter (λ g, sku g = "XYZ")
    (final_rows sample_localeCompare
       (build_rows [order_out; order_in; order_late]).1)
  = filter (λ g, sku g = "XYZ")
      (Object_values (group_rows (build_rows [order_out; order_in; order_late]).1)).
Proof.
  split; [exact sample_localeCompare_antisym|].
  exact (proj1 (rows_of_one_sku_keep_their_first_appearance_order
                  sample_localeCompare
                  (build_rows [order_out; order_in; order_late]).1 "XYZ"
                  sample_localeCompare_antisym)).
Defined.

(** * The range, the remote error and the missing start date on the
    sample store *)

(** The order created in the last minute of the range is reported. *)
Example scenario_order_of_the_last_minute :
  action sample_Date_parse sample_LocalTZA sample_localeCompare sample_form
    [sample_page [order_out; order_late; order_in] false] "now"
  = Some (mkActionData [row_8; row_late] ["Warehouse A"] "now"
            (Some "2024-01-01T00:00") (Some "2024-01-01T23:59")).
Proof. vm_compute. reflexivity. Qed.



Lemma remote_error_returns_partial_report_witness :
  remote_error sample_error ∧
  action sample_Date_parse sample_LocalTZA sample_localeCompare sample_form
    ([sample_page [order_out; order_in] true] ++ sample_error :: []) "now"
  = Some (mkActionData [row_8] ["Warehouse A"] "now"
            (Some "2024-01-01T00:00") (Some "2024-01-01T23:59")).
Proof.
  assert (remote_error sample_error) as Hbad.
  { intros cursor. left. discriminate. }
  split; [exact Hbad|].
  destruct (remote_error_returns_partial_report sample_Date_parse
              sample_LocalTZA sample_localeCompare sample_form
              [sample_page [order_out; order_in] true] sample_error [] "now"
              Hbad) as [Hret _].
  rewrite Hret. vm_compute. reflexivity.
Defined.


(** The form without start date on the sample store. *)
Example scenario_missing_start_date :
  action sample_Date_parse sample_LocalTZA sample_localeCompare endless_form
    [sample_page [order_out; order_in] false] "now"
  = Some (mkActionData [row_8] ["Warehouse A"] "now" None
            (Some "2024-01-01T23:59")).
Proof. vm_compute. reflexivity. Qed.
